(** * Training-trigger pipeline of the anomaly-detection service

    A shallow embedding of [src/connectors/prometheus.py] (range-query
    paginator, frame construction, data cleaner) and of
    [src/udsink/train.py] (dedup gate, backend dispatch, training and
    artifact saving, sink loop), followed by the properties established
    about them.

    Conventions of the embedding.
    - A Python call that may raise returns a [result]; [try/except] is a
      [match] on it.
    - Time is epoch seconds, kept as [Z]; the quotient
      [(end - start) / step] is the exact rational [Q].
    - A pandas frame is a list of rows under a list of column names; a
      cell is a missing value, an infinity, a finite number or a string.
      Finite numbers are only copied and compared by the code, so they are
      kept as integers.
    - Collaborators that are not part of these sources (the HTTP backend,
      the configuration store, the numeric pipeline stages, the artifact
      registry) are fields of a [World] record: each is a function giving
      the outcome of the call. *)

From Stdlib Require Import ZArith QArith List String Ascii Bool Lia.
From stdpp Require Import gmap strings list sorting.

Open Scope Z_scope.

(* ================================================================== *)
(** * Part I: definitions *)
(* ================================================================== *)

(** ** Exceptions and fallible calls *)

Inductive exn : Type :=
| RedisRegistryError
| KeyError (key : string)
| TypeError
| ValueError
| IndexError
| AttributeError
| ZeroDivisionError
| ConnectionError
| RuntimeError.

Inductive result (A : Type) : Type :=
| Ok (a : A)
| Raise (e : exn).
Arguments Ok {A} a.
Arguments Raise {A} e.

#[global] Instance result_ret : MRet result := fun A a => Ok a.
#[global] Instance result_bind : MBind result :=
  fun A B f m => match m with Ok a => f a | Raise e => Raise e end.
#[global] Instance result_fmap : FMap result :=
  fun A B f m => match m with Ok a => Ok (f a) | Raise e => Raise e end.


(** [l[i]] on a Python list. *)
Definition py_index {A} (l : list A) (i : nat) : result A :=
  match l !! i with Some a => Ok a | None => Raise IndexError end.

(* ------------------------------------------------------------------ *)
(** ** pandas frames, as far as the cleaner uses them *)

Module pd.

Inductive cell : Type :=
| NaN
| Inf (positive : bool)
| Num (z : Z)
| Str (s : string).

#[global] Instance cell_eq_dec : EqDecision cell.
Proof. solve_decision. Defined.

Record row : Type := Row { label : cell; cells : list cell }.

#[global] Instance row_eq_dec : EqDecision row.
Proof. solve_decision. Defined.

Record DataFrame : Type := Frame {
  index_name : option string;
  columns : list string;
  rows : list row
}.

#[global] Instance DataFrame_eq_dec : EqDecision DataFrame.
Proof. solve_decision. Defined.

(** [pd.DataFrame()] *)
Definition DataFrame_new : DataFrame := Frame None [] [].

(** [df.empty]: no rows or no columns. *)
Definition empty (df : DataFrame) : bool :=
  match columns df, rows df with
  | _ :: _, _ :: _ => false
  | _, _ => true
  end.

(** [len(df)] and [df.shape[0]] *)
Definition len (df : DataFrame) : nat := length (rows df).

Definition with_rows (df : DataFrame) (rs : list row) : DataFrame :=
  Frame (index_name df) (columns df) rs.

Definition is_nan (c : cell) : bool :=
  match c with NaN => true | _ => false end.

Definition is_inf (c : cell) : bool :=
  match c with Inf _ => true | _ => false end.

(** [df.replace([np.inf, -np.inf], np.nan)] *)
Definition replace_inf_cell (c : cell) : cell :=
  match c with Inf _ => NaN | _ => c end.

Definition replace_inf (df : DataFrame) : DataFrame :=
  with_rows df
    (map (fun r => Row (label r) (map replace_inf_cell (cells r))) (rows df)).

(** Forward fill with a limit. Per column the scan keeps the last valid
    value and how many missing cells it has filled since. *)
Definition fill_state : Type := option (cell * nat).

Definition fill_cell (limit : nat) (s : fill_state) (c : cell)
  : fill_state * cell :=
  match c with
  | NaN =>
      match s with
      | Some (v, n) =>
          if (n <? limit)%nat then (Some (v, S n), v) else (s, NaN)
      | None => (None, NaN)
      end
  | _ => (Some (c, 0%nat), c)
  end.

Fixpoint fill_row (limit : nat) (st : list fill_state) (cs : list cell)
  : list fill_state * list cell :=
  match cs with
  | [] => ([], [])
  | c :: cs' =>
      let '(s', c') := fill_cell limit (List.hd None st) c in
      let '(st', cs'') := fill_row limit (List.tl st) cs' in
      (s' :: st', c' :: cs'')
  end.

Fixpoint ffill_rows (limit : nat) (st : list fill_state) (rs : list row)
  : list row :=
  match rs with
  | [] => []
  | r :: rs' =>
      let '(st', cs) := fill_row limit st (cells r) in
      Row (label r) cs :: ffill_rows limit st' rs'
  end.

(** [df.fillna(method="ffill", limit=limit)]; pandas refuses a limit
    that is not positive. *)
Definition fillna_ffill (limit : nat) (df : DataFrame) : result DataFrame :=
  if (limit =? 0)%nat then Raise ValueError
  else Ok (with_rows df (ffill_rows limit [] (rows df))).

(** [df.fillna(method="bfill", limit=limit)]: the same scan from the
    last row upwards. *)
Definition fillna_bfill (limit : nat) (df : DataFrame) : result DataFrame :=
  if (limit =? 0)%nat then Raise ValueError
  else Ok (with_rows df (rev (ffill_rows limit [] (rev (rows df))))).

Definition row_has_nan (r : row) : bool := existsb is_nan (cells r).

(** [df.columns[df.isna().any()].tolist()] is non-empty *)
Definition isna_any (df : DataFrame) : bool := existsb row_has_nan (rows df).

(** [df.dropna()] *)
Definition dropna (df : DataFrame) : DataFrame :=
  with_rows df (List.filter (fun r => negb (row_has_nan r)) (rows df)).

(** Position of the first column called [name]. *)
Fixpoint col_pos (name : string) (cols : list string) : option nat :=
  match cols with
  | [] => None
  | c :: cols' =>
      if bool_decide (c = name) then Some 0%nat
      else S <$> col_pos name cols'
  end.

Definition cell_at (j : nat) (r : row) : cell := nth j (cells r) NaN.

(** A fresh [RangeIndex]. *)
Definition range_index (rs : list (list cell)) : list row :=
  imap (fun i cs => Row (Num (Z.of_nat i)) cs) rs.

(** [df.reset_index()]: the index becomes the first column, called after
    the index, or ["index"] (["level_0"] when that is taken) for an
    unnamed one; inserting a name that exists is refused. *)
Definition reset_index (df : DataFrame) : result DataFrame :=
  let name :=
    match index_name df with
    | Some n => n
    | None =>
        if bool_decide ("index"%string ∈ columns df)
        then "level_0"%string else "index"%string
    end in
  if bool_decide (name ∈ columns df) then Raise ValueError
  else Ok (Frame None (name :: columns df)
             (range_index (map (fun r => label r :: cells r) (rows df)))).

Definition occurrences (k : cell) (keys : list cell) : nat :=
  length (List.filter (fun x => bool_decide (x = k)) keys).

(** [df.duplicated(col, keep=False)]: the mask of the rows whose value
    in [col] occurs in more than one row. *)
Definition duplicated (col : string) (df : DataFrame) : result (list bool) :=
  match col_pos col (columns df) with
  | None => Raise (KeyError col)
  | Some j =>
      let keys := map (cell_at j) (rows df) in
      Ok (map (fun k => (2 <=? occurrences k keys)%nat) keys)
  end.

(** Selection by a list of booleans, on rows ([df[mask]]) and on the
    cells of one row. *)
Fixpoint select {A} (mask : list bool) (l : list A) : list A :=
  match mask, l with
  | b :: mask', x :: l' =>
      if b then x :: select mask' l' else select mask' l'
  | _, _ => []
  end.

Definition loc_mask (mask : list bool) (df : DataFrame) : DataFrame :=
  with_rows df (select mask (rows df)).

(** The [_merge] column written by [indicator=True]. *)
Inductive indicator : Type := left_only | right_only | both.

#[global] Instance indicator_eq_dec : EqDecision indicator.
Proof. solve_decision. Defined.

Definition matches_in (cs : list cell) (rs : list row) : list row :=
  List.filter (fun r => bool_decide (cells r = cs)) rs.

(** [pd.merge(l, r, indicator=True, how="outer")] for two frames over
    the same columns, so that every column is a join key: a left row is
    paired with each equal right row, or kept alone; right rows that no
    left row equals follow. The indicator column may not exist already.
    pandas may reorder the merged rows by key; the cleaner sorts them
    again by a key that is unique among the rows it keeps, so the order
    chosen here does not show in its result. *)
Definition merge_outer_indicator (l r : DataFrame)
  : result (list (list cell * indicator)) :=
  if bool_decide ("_merge"%string ∈ columns l) then Raise ValueError
  else
    Ok (flat_map
          (fun x =>
             match matches_in (cells x) (rows r) with
             | [] => [(cells x, left_only)]
             | ms => map (fun _ => (cells x, both)) ms
             end) (rows l)
        ++ flat_map
             (fun y =>
                match matches_in (cells y) (rows l) with
                | [] => [(cells y, right_only)]
                | _ => []
                end) (rows r)).

(** [.query('_merge=="left_only"').drop("_merge", axis=1)]: the rows
    keep the labels they had in the merged frame. *)
Definition query_left_only (cols : list string)
    (merged : list (list cell * indicator)) : DataFrame :=
  Frame None cols
    (map (fun p => Row (label p.1) (cells p.1))
       (List.filter (fun p => bool_decide (p.2 = left_only))
          (combine (range_index (map fst merged)) (map snd merged)))).

(** [df.set_index(col)] *)
Definition set_index (col : string) (df : DataFrame) : result DataFrame :=
  match col_pos col (columns df) with
  | None => Raise (KeyError col)
  | Some j =>
      Ok (Frame (Some col) (delete j (columns df))
            (map (fun r => Row (cell_at j r) (delete j (cells r))) (rows df)))
  end.

(** [df.drop(col, axis=1)]: every column of that name goes; an unknown
    name is a [KeyError]. *)
Definition drop_column (col : string) (df : DataFrame) : result DataFrame :=
  if bool_decide (col ∈ columns df) then
    let keep := map (fun c => negb (bool_decide (c = col))) (columns df) in
    Ok (Frame (index_name df) (select keep (columns df))
          (map (fun r => Row (label r) (select keep (cells r))) (rows df)))
  else Raise (KeyError col).

(** The order of [sort_values]: numbers by value between the two
    infinities, strings after them by their characters, missing values
    last. *)
Definition cell_rank (c : cell) : Z :=
  match c with
  | Inf false => 0
  | Num _ => 1
  | Inf true => 2
  | Str _ => 3
  | NaN => 4
  end.

Definition cell_leb (a b : cell) : bool :=
  match a, b with
  | Num x, Num y => x <=? y
  | Str x, Str y => String.leb x y
  | _, _ => cell_rank a <=? cell_rank b
  end.

Definition cell_le (a b : cell) : Prop := cell_leb a b = true.

#[global] Instance cell_le_dec : RelDecision cell_le.
Proof. intros a b. unfold cell_le. apply _. Defined.

Definition is_str (c : cell) : bool :=
  match c with Str _ => true | _ => false end.

Definition is_number (c : cell) : bool :=
  match c with Num _ | Inf _ => true | _ => false end.

(** [df.sort_values(by=[name], ascending=True)], where [name] is a
    column or the name of the index. Strings and numbers do not compare
    in Python. The rows come out in ascending order of the key. pandas
    leaves the order of rows of equal key to its sorting algorithm; here
    they keep their former order. *)
Definition key_le (key : row -> cell) (a b : row) : Prop :=
  cell_le (key a) (key b).

#[global] Instance key_le_dec key : RelDecision (key_le key).
Proof. intros a b. unfold key_le. apply _. Defined.

Definition sort_rows (key : row -> cell) (rs : list row)
  : result (list row) :=
  let keys := map key rs in
  if existsb is_str keys && existsb is_number keys then Raise TypeError
  else Ok (merge_sort (key_le key) rs).

Definition sort_values (by_ : string) (df : DataFrame) : result DataFrame :=
  match col_pos by_ (columns df),
        bool_decide (index_name df = Some by_) with
  | Some j, false => with_rows df <$> sort_rows (cell_at j) (rows df)
  | None, true => with_rows df <$> sort_rows label (rows df)
  | Some _, true => Raise ValueError
  | None, false => Raise (KeyError by_)
  end.

End pd.

(* ------------------------------------------------------------------ *)
(** ** connectors/prometheus.py: class [Prometheus] *)

Module Prometheus.
Import pd.

(** One entry of the backend's result list: the label set of the series
    and its [[timestamp, value]] pairs, as [np.array(..., dtype=float)]
    reads them. *)
Record Series : Type := {
  metric : list (string * string);
  values : list (cell * cell)
}.

(** One HTTP request to [/api/v1/query_range]: the server and the
    [query], [start], [end] and [step] parameters. *)
Record BackendCall : Type := {
  call_server : string;
  call_query : string;
  call_start : Z;
  call_end : Z;
  call_step : Z
}.

#[global] Instance BackendCall_eq_dec : EqDecision BackendCall.
Proof. solve_decision. Defined.

(** [(end - start) / step], Python's true division. *)
Definition data_points (start end_ step : Z) : result Q :=
  if step =? 0 then Raise ZeroDivisionError
  else Ok (inject_Z (end_ - start) / inject_Z step)%Q.

Definition Qgtb (a b : Q) : bool := negb (Qle_bool a b).

(** The default of the [step] parameter. *)
Definition default_step : Z := 30.

Definition dict_get (key : string) (d : list (string * string))
  : option string :=
  snd <$> List.find (fun kv => bool_decide (kv.1 = key)) d.

Section Server.

(** [self.PROMETHEUS_SERVER] *)
Variable PROMETHEUS_SERVER : string.

(** [requests.get(...)] followed by [response.json()["data"]["result"]]:
    the series returned, or the exception of an unreachable server or a
    malformed reply. *)
Variable http_get : BackendCall -> result (list Series).

(** The functions return the results together with the requests they
    have sent, oldest first. *)
Definition query_range_limit (query : string) (start end_ step : Z)
  : result (list Series * list BackendCall) :=
  dp ← data_points start end_ step;
  if Qgtb dp 11000 then Ok ([], [])
  else
    let call := Build_BackendCall PROMETHEUS_SERVER query start end_ step in
    match http_get call with
    | Ok results => Ok (results, [call])
    | Raise _ => Ok ([], [call])
    end.

(** The [while] loop of [query_range] and the statements after it;
    [fuel] bounds the number of iterations. *)
Fixpoint query_range_loop (fuel : nat) (query : string) (end_ step : Z)
    (temp_start : Z) (results : list Series) (calls : list BackendCall)
  : option (result (list Series * list BackendCall)) :=
  match data_points temp_start end_ step with
  | Raise e => Some (Raise e)
  | Ok dp =>
      if Qgtb dp 11000 then
        match fuel with
        | O => None
        | S fuel' =>
            let temp_end := temp_start + 11000 * step in
            match query_range_limit query temp_start temp_end step with
            | Raise e => Some (Raise e)
            | Ok (response, sent) =>
                query_range_loop fuel' query end_ step temp_end
                  (results ++ response) (calls ++ sent)
            end
        end
      else if Qgtb dp 0 then
        match query_range_limit query temp_start end_ default_step with
        | Raise e => Some (Raise e)
        | Ok (response, sent) => Some (Ok (results ++ response, calls ++ sent))
        end
      else Some (Ok (results, calls))
  end.

(** Each iteration takes [11000 * step] off the remaining range. *)
Definition query_range_fuel (start end_ step : Z) : nat :=
  S (Z.to_nat ((end_ - start) / (11000 * step))).

Definition query_range (query : string) (start end_ step : Z)
  : result (list Series * list BackendCall) :=
  match query_range_loop (query_range_fuel start end_ step)
          query end_ step start [] [] with
  | Some r => r
  | None => Raise RuntimeError
  end.

Definition build_query (metric_name : string)
    (labels_map : list (string * string)) : string :=
  match labels_map with
  | [] => metric_name
  | _ =>
      metric_name +:+ "{" +:+
      String.concat ","
        (map (fun kv => kv.1 +:+ "=" +:+ "'" +:+ kv.2 +:+ "'") labels_map)
      +:+ "}"
  end.

(** [_df[label] = value] *)
Definition assign_column (name : string) (v : cell) (df : DataFrame)
  : DataFrame :=
  match col_pos name (columns df) with
  | Some j =>
      with_rows df (map (fun r => Row (label r) (<[j := v]> (cells r))) (rows df))
  | None =>
      Frame (index_name df) (columns df ++ [name])
        (map (fun r => Row (label r) (cells r ++ [v])) (rows df))
  end.

(** The frame built from one series, with the requested labels that the
    series carries. A series without values gives an array of shape
    [(0,)], which the frame constructor refuses for two columns. *)
Definition series_frame (metric_name : string)
    (return_labels : option (list string)) (series : Series)
  : result DataFrame :=
  match values series with
  | [] => Raise ValueError
  | _ =>
      let _df :=
        Frame None ["timestamp"%string; metric_name]
          (range_index (map (fun p => [p.1; p.2]) (values series))) in
      Ok (fold_left
            (fun df label =>
               match dict_get label (metric series) with
               | Some v => assign_column label (Str v) df
               | None => df
               end)
            (default [] return_labels) _df)
  end.

(** [pd.concat(frames, ignore_index=True)]: the columns of all frames in
    order of first appearance, a missing value where a frame lacks the
    column, and a fresh index. *)
Definition union_columns (frames : list DataFrame) : list string :=
  fold_left
    (fun acc df =>
       acc ++ List.filter (fun c => negb (bool_decide (c ∈ acc)))
                (remove_dups (columns df)))
    frames [].

Definition align (cols : list string) (df : DataFrame) (r : row)
  : list cell :=
  map (fun c =>
         match col_pos c (columns df) with
         | Some j => cell_at j r
         | None => NaN
         end) cols.

Definition concat (frames : list DataFrame) : DataFrame :=
  let cols := union_columns frames in
  Frame None cols
    (range_index (flat_map (fun df => map (align cols df) (rows df)) frames)).

(** [query_metric]. [pd.to_datetime(..., unit="s")] keeps the order and
    the equality of the timestamps, which stay the numbers they were. *)
Definition query_metric (metric_name : string) (start end_ : Z)
    (labels_map : list (string * string))
    (return_labels : option (list string)) (step : Z)
  : result (DataFrame * list BackendCall) :=
  let query := build_query metric_name labels_map in
  if end_ <? start then Raise ValueError
  else
    '(results, sent) ← query_range query start end_ step;
    frames ← mapM (series_frame metric_name return_labels) results;
    match frames with
    | [] => Ok (DataFrame_new, sent)
    | _ =>
        df ← sort_values "timestamp" (concat frames);
        Ok (df, sent)
    end.

End Server.
End Prometheus.

(* ------------------------------------------------------------------ *)
(** ** connectors/prometheus.py: class [PrometheusDataFetcher] *)

Module PrometheusDataFetcher.
Import pd.

Definition rollout_label : string := "rollouts_pod_template_hash".

(** The de-duplication branch of [clean_data]. *)
Definition drop_overlaps (df : DataFrame) : result DataFrame :=
  df ← reset_index df;
  dup ← duplicated "timestamp" df;
  merged ← merge_outer_indicator df (loc_mask dup df);
  let df := query_left_only (columns df) merged in
  df ← set_index "timestamp" df;
  df ← drop_column rollout_label df;
  sort_values "timestamp" df.

(** Gap repair: the two [fillna] calls and the [dropna] that runs when
    some column still has a missing value. *)
Definition gap_repair (df : DataFrame) (limit : nat) : result DataFrame :=
  df ← fillna_ffill limit df;
  df ← fillna_bfill limit df;
  Ok (if isna_any df then dropna df else df).

(** The statements of [clean_data] after the in-place [replace], on the
    frame as [replace] has left it. [return_labels] is [None] when the
    caller passes Python's [None], on which [in] raises. *)
Definition clean_steps (df : DataFrame)
    (return_labels : option (list string)) (limit : nat)
  : result DataFrame :=
  df ← gap_repair df limit;
  if empty df then Ok DataFrame_new
  else
    match return_labels with
    | None => Raise TypeError
    | Some labels =>
        if bool_decide (rollout_label ∈ labels) then drop_overlaps df
        else Ok df
    end.

(** [clean_data] gives back two things: the caller's frame object, which
    [df.replace(..., inplace=True)] has rewritten before anything else
    runs, and the value returned or the exception raised. Every later
    step works on a new frame ([fillna] without [inplace]). *)
Definition clean_data (df : DataFrame)
    (return_labels : option (list string)) (limit : nat)
  : DataFrame * result DataFrame :=
  let df := replace_inf df in
  (df, clean_steps df return_labels limit).

(** The value of [clean_data] alone. *)
Definition clean (df : DataFrame) (return_labels : option (list string))
  : result DataFrame :=
  (clean_data df return_labels 12).2.

Section Fetcher.

Variable prometheus_server : string.
Variable http_get : Prometheus.BackendCall -> result (list Prometheus.Series).

(** [fetch_data], called at time [now] (seconds). When [clean_data]
    raises, [df] is still the frame [query_metric] returned, as the
    call has left it. *)
Definition fetch_data (now : Z) (metric : string)
    (labels : list (string * string)) (hours : Z) (scrape_interval : Z)
    (return_labels : option (list string)) : result DataFrame :=
  let end_dt := now in
  let start_dt := end_dt - hours * 3600 in
  '(df, _) ← Prometheus.query_metric prometheus_server http_get
               metric start_dt end_dt labels return_labels scrape_interval;
  let '(df, cleaned) := clean_data df return_labels 12 in
  Ok (match cleaned with
      | Ok df' => df'
      | Raise _ => df
      end).

End Fetcher.
End PrometheusDataFetcher.

(* ------------------------------------------------------------------ *)
(** ** udsink/train.py: class [Train] *)

Module Train.
Import pd.

Record TrainerPayload : Type := {
  uuid : string;
  composite_keys : list string;
  metric : string
}.

(** A message of the sink: its delivery id and what [orjson.loads] and
    the [TrainerPayload] constructor make of its bytes, a payload or the
    exception of the decoder. *)
Record Datum : Type := {
  id : string;
  value : result TrainerPayload
}.

Record Response : Type := {
  response_id : string;
  success : bool
}.

#[global] Instance Response_eq_dec : EqDecision Response.
Proof. solve_decision. Defined.

(** [Response.as_success(id)] *)
Definition as_success (msg_id : string) : Response :=
  {| response_id := msg_id; success := true |}.

(** *** The configuration store, as the code reads it *)

(** [DataSource]; the last case stands for any value [fetch_data] has
    no branch for. *)
Inductive DataSource : Type :=
| PROMETHEUS
| DRUID
| OTHER (name : string).

Record DruidFetcherConf : Type := {
  datasource : string;
  dimensions : list string;
  granularity : string;
  aggregations : list string;
  group_by : list string;
  pivot : string;
  hours : Z
}.

Record StreamConf : Type := {
  source : DataSource;
  stream_composite_keys : list string;
  druid_fetcher : DruidFetcherConf
}.

Record PrometheusConf : Type := { server : string }.

Record DruidConf : Type := { url : string; endpoint : string }.

Record ModelInfo : Type := { name : string }.

Record NumalogicConf : Type := {
  model : ModelInfo;
  preprocess : list ModelInfo;
  trainer : string;
  threshold : ModelInfo
}.

Record RetrainConf : Type := { min_train_size : Z }.

Record MetricConf : Type := {
  retrain_conf : RetrainConf;
  numalogic_conf : NumalogicConf
}.

(** *** Artifacts and the registry *)

(** A fitted object, opaque to this code. *)
Definition Artifact : Type := Z.

(** [train_df.to_numpy()] and the arrays derived from it. *)
Definition Matrix : Type := list (list cell).

Definition to_numpy (df : DataFrame) : Matrix := map cells (rows df).

(** The arguments of one [model_registry.save] call. *)
Record SaveCall : Type := {
  skeys : list string;
  dkeys : list string;
  artifact : Artifact;
  save_uuid : string;
  train_size : option nat
}.

#[global] Instance SaveCall_eq_dec : EqDecision SaveCall.
Proof. solve_decision. Defined.

(** What the registry has been asked to save, and what it holds: the
    calls that returned, with the version each was given. The code has
    no other operation on it. *)
Record Registry : Type := {
  attempts : list SaveCall;
  stored : list (SaveCall * Z)
}.

(** The arguments [fetch_druid_data] passes to [DruidFetcher]. *)
Record DruidQuery : Type := {
  q_url : string;
  q_endpoint : string;
  q_datasource : string;
  q_filter_keys : list string;
  q_filter_values : list string;
  q_dimensions : list string;
  q_granularity : string;
  q_aggregations : list string;
  q_group_by : list string;
  q_pivot : string;
  q_hours : Z
}.

(** The stages of the training pipeline, for the log of their calls. *)
Inductive Stage : Type := Preprocess | FitModel | FitThreshold.

#[global] Instance Stage_eq_dec : EqDecision Stage.
Proof. solve_decision. Defined.

(** *** The collaborators

    [REQUEST_EXPIRY] is the environment value read when the module is
    loaded. A configuration getter answers [None] for an entry that is
    absent. The three fitting functions stand for the factories and
    estimators of [_preprocess], [_train_model] and [_find_threshold];
    [registry_save] for [RedisRegistry.save], which sees the registry.
    Each collaborator answers a call by its arguments alone, the same
    way throughout a run. *)
Record World : Type := {
  REQUEST_EXPIRY : Z;
  get_ds_config : string -> option StreamConf;
  get_prom_config : option PrometheusConf;
  get_druid_config : option DruidConf;
  get_metric_config : string -> string -> option MetricConf;
  http_get : Prometheus.BackendCall -> result (list Prometheus.Series);
  druid_query : DruidQuery -> result DataFrame;
  preprocess_fit : list ModelInfo -> Matrix -> result (Matrix * Artifact);
  model_fit : ModelInfo -> string -> Matrix -> result (Matrix * Artifact);
  threshold_fit : ModelInfo -> Matrix -> result Artifact;
  registry_save : Registry -> SaveCall -> result Z
}.

(** An attribute read on the answer of a getter: [None.attr] raises. *)
Definition py_attr {A} (o : option A) : result A :=
  match o with Some a => Ok a | None => Raise AttributeError end.

(** *** The marker store

    A key holds a value until its expiry time. [get] and [setex] are
    the two commands the gate sends; the store is taken to answer
    them. *)
Abbreviation redis_client_t := (gmap string (string * Z)).

Definition redis_get (now : Z) (client : redis_client_t) (key : string)
  : option string :=
  match client !! key with
  | Some (v, expiry) => if now <? expiry then Some v else None
  | None => None
  end.

Definition redis_setex (now : Z) (client : redis_client_t) (key : string)
    (time : Z) (v : string) : redis_client_t :=
  <[key := (v, now + time)]> client.

(** [if value:] on the reply of [get]. *)
Definition truthy (v : option string) : bool :=
  match v with
  | Some s => negb (String.eqb s "")
  | None => false
  end.

Definition request_key (payload : TrainerPayload) : string :=
  "train::" +:+ String.concat ":" (composite_keys payload ++ [metric payload]).

(** [_is_new_request], called at time [now]: the answer and the store
    afterwards. *)
Definition _is_new_request (w : World) (now : Z)
    (redis_client : redis_client_t) (payload : TrainerPayload)
  : bool * redis_client_t :=
  let r_key := request_key payload in
  let value := redis_get now redis_client r_key in
  if truthy value then (false, redis_client)
  else (true, redis_setex now redis_client r_key (REQUEST_EXPIRY w) "1").


(** The same function as the two commands it sends, one per step, for
    runs in which several sinks share the store. *)
Inductive gate_pc : Type :=
| AtGet
| AtSetex
| Returned (is_new : bool).

Definition gate_step (w : World) (now : Z) (payload : TrainerPayload)
    (pc : gate_pc) (client : redis_client_t) : gate_pc * redis_client_t :=
  match pc with
  | AtGet =>
      if truthy (redis_get now client (request_key payload))
      then (Returned false, client)
      else (AtSetex, client)
  | AtSetex =>
      (Returned true,
       redis_setex now client (request_key payload) (REQUEST_EXPIRY w) "1")
  | Returned b => (Returned b, client)
  end.

(** Two sinks and one store: each entry of the schedule says which sink
    sends its next command, and when. *)
Record Sinks : Type := {
  pc_a : gate_pc;
  pc_b : gate_pc;
  shared : redis_client_t
}.

Definition sinks_step (w : World) (pa pb : TrainerPayload)
    (s : Sinks) (turn : bool * Z) : Sinks :=
  if turn.1 then
    let '(pc, client) := gate_step w turn.2 pa (pc_a s) (shared s) in
    {| pc_a := pc; pc_b := pc_b s; shared := client |}
  else
    let '(pc, client) := gate_step w turn.2 pb (pc_b s) (shared s) in
    {| pc_a := pc_a s; pc_b := pc; shared := client |}.

Definition sinks_run (w : World) (pa pb : TrainerPayload)
    (schedule : list (bool * Z)) (client : redis_client_t) : Sinks :=
  fold_left (sinks_step w pa pb) schedule
    {| pc_a := AtGet; pc_b := AtGet; shared := client |}.

(** The two calls overlap when the first two commands of the schedule
    come from different sinks: both [get]s are answered before either
    [setex] is sent. *)
Definition overlapping (schedule : list (bool * Z)) : bool :=
  match schedule with
  | (a, _) :: (b, _) :: _ => xorb a b
  | _ => false
  end.

(** *** State of one sink and the monad of its methods *)

Record State : Type := {
  redis : redis_client_t;
  registry : Registry;
  stages : list Stage
}.

(** A method takes the state and gives its value, or the exception it
    raised, with the state as it is then: what was written before an
    exception stays written. *)
Definition M (A : Type) : Type := State -> result A * State.

#[global] Instance M_ret : MRet M := fun A a st => (Ok a, st).
#[global] Instance M_bind : MBind M :=
  fun A B f m st =>
    match m st with
    | (Ok a, st') => f a st'
    | (Raise e, st') => (Raise e, st')
    end.

Definition lift {A} (r : result A) : M A := fun st => (r, st).

(** The log of the pipeline stages entered. *)
Definition log_stage (s : Stage) : M unit :=
  fun st =>
    (Ok tt, {| redis := redis st; registry := registry st;
               stages := stages st ++ [s] |}).

(** *** Fetching *)

(** Modelled from the spec: [DruidFetcher.fetch_data], whose module
    [src/connectors/druid.py] is not among the sources. Section 4.2:
    one aggregation query, pivoted into the tabular shape of the other
    backend; an empty frame, not an error, when the backend is
    unreachable or returns no rows. *)
Definition DruidFetcher_fetch_data (w : World) (q : DruidQuery) : DataFrame :=
  match druid_query w q with
  | Ok df => if empty df then DataFrame_new else df
  | Raise _ => DataFrame_new
  end.

Definition fetch_prometheus_data (w : World) (now : Z)
    (payload : TrainerPayload) : result DataFrame :=
  match get_prom_config w with
  | None => Ok DataFrame_new
  | Some prometheus_conf =>
      namespace ← py_index (composite_keys payload) 1;
      PrometheusDataFetcher.fetch_data (server prometheus_conf) (http_get w)
        now (metric payload) [("namespace"%string, namespace)] 36 30
        (Some [PrometheusDataFetcher.rollout_label])
  end.

Definition fetch_druid_data (w : World) (payload : TrainerPayload)
  : result DataFrame :=
  config_name ← py_index (composite_keys payload) 0;
  let stream_config := get_ds_config w config_name in
  let druid_conf := get_druid_config w in
  fetcher_conf ← druid_fetcher <$> py_attr stream_config;
  match druid_conf with
  | None => Ok DataFrame_new
  | Some druid_conf =>
      stream_keys ← stream_composite_keys <$> py_attr stream_config;
      Ok (DruidFetcher_fetch_data w
            {| q_url := url druid_conf;
               q_endpoint := endpoint druid_conf;
               q_datasource := datasource fetcher_conf;
               q_filter_keys := stream_keys ++ dimensions fetcher_conf;
               q_filter_values :=
                 List.tl (composite_keys payload) ++ [metric payload];
               q_dimensions := dimensions fetcher_conf;
               q_granularity := granularity fetcher_conf;
               q_aggregations := aggregations fetcher_conf;
               q_group_by := group_by fetcher_conf;
               q_pivot := pivot fetcher_conf;
               q_hours := hours fetcher_conf |})
  end.

Definition fetch_data (w : World) (now : Z) (payload : TrainerPayload)
  : result DataFrame :=
  config_name ← py_index (composite_keys payload) 0;
  stream_config ← py_attr (get_ds_config w config_name);
  match source stream_config with
  | PROMETHEUS => fetch_prometheus_data w now payload
  | DRUID => fetch_druid_data w payload
  | OTHER _ => Ok DataFrame_new
  end.

(** *** Training and saving *)

Definition _preprocess (w : World) (x_raw : Matrix)
    (preproc_cfgs : list ModelInfo) : M (Matrix * Artifact) :=
  log_stage Preprocess ;;
  lift (preprocess_fit w preproc_cfgs x_raw).

(** The reconstruction error and the model; the trainer object that the
    source returns with them is not used by the caller. *)
Definition _train_model (w : World) (uuid : string) (x : Matrix)
    (model_cfg : ModelInfo) (trainer_cfg : string) : M (Matrix * Artifact) :=
  log_stage FitModel ;;
  lift (model_fit w model_cfg trainer_cfg x).

Definition _find_threshold (w : World) (x_reconerr : Matrix)
    (thresh_cfg : ModelInfo) : M Artifact :=
  log_stage FitThreshold ;;
  lift (threshold_fit w thresh_cfg x_reconerr).

(** [model_registry.save(...)]: the call is recorded, and its artifact
    is held when the registry returns a version. *)
Definition save (w : World) (call : SaveCall) : M Z :=
  fun st =>
    let reg := registry st in
    let outcome := registry_save w reg call in
    (outcome,
     {| redis := redis st;
        registry :=
          {| attempts := attempts reg ++ [call];
             stored := match outcome with
                       | Ok version => stored reg ++ [(call, version)]
                       | Raise _ => stored reg
                       end |};
        stages := stages st |}).

(** [try: ... except RedisRegistryError: ... else: ...] around a save;
    both branches only log. *)
Definition except_RedisRegistryError (m : M Z) : M unit :=
  fun st =>
    match m st with
    | (Ok _, st') => (Ok tt, st')
    | (Raise RedisRegistryError, st') => (Ok tt, st')
    | (Raise e, st') => (Raise e, st')
    end.

Definition model_save_call (numalogic_conf : NumalogicConf)
    (payload : TrainerPayload) (train_df : DataFrame)
    (anomaly_model : Artifact) : SaveCall :=
  {| skeys := composite_keys payload ++ [metric payload];
     dkeys := [name (model numalogic_conf)];
     artifact := anomaly_model;
     save_uuid := uuid payload;
     train_size := Some (len train_df) |}.

Definition preproc_save_call (numalogic_conf : NumalogicConf)
    (payload : TrainerPayload) (preproc_clf : Artifact) : SaveCall :=
  {| skeys := composite_keys payload ++ [metric payload];
     dkeys := map name (preprocess numalogic_conf);
     artifact := preproc_clf;
     save_uuid := uuid payload;
     train_size := None |}.

Definition thresh_save_call (numalogic_conf : NumalogicConf)
    (payload : TrainerPayload) (thresh_clf : Artifact) : SaveCall :=
  {| skeys := composite_keys payload ++ [metric payload];
     dkeys := [name (threshold numalogic_conf)];
     artifact := thresh_clf;
     save_uuid := uuid payload;
     train_size := None |}.

Definition _train_and_save (w : World) (numalogic_conf : NumalogicConf)
    (payload : TrainerPayload) (train_df : DataFrame) : M unit :=
  let model_cfg := model numalogic_conf in
  let preproc_cfgs := preprocess numalogic_conf in
  '(x_train, preproc_clf) ←
     _preprocess w (to_numpy train_df) preproc_cfgs;
  let trainer_cfg := trainer numalogic_conf in
  '(x_reconerr, anomaly_model) ←
     _train_model w (uuid payload) x_train model_cfg trainer_cfg;
  let thresh_cfg := threshold numalogic_conf in
  thresh_clf ← _find_threshold w x_reconerr thresh_cfg;
  except_RedisRegistryError
    (save w (model_save_call numalogic_conf payload train_df anomaly_model)) ;;
  except_RedisRegistryError
    (save w (preproc_save_call numalogic_conf payload preproc_clf)) ;;
  except_RedisRegistryError
    (save w (thresh_save_call numalogic_conf payload thresh_clf)).

(** *** The sink loop *)

Definition is_new_request (w : World) (now : Z) (payload : TrainerPayload)
  : M bool :=
  fun st =>
    let '(is_new, client) := _is_new_request w now (redis st) payload in
    (Ok is_new,
     {| redis := client; registry := registry st; stages := stages st |}).

(** The loop body once the data are fetched or the fetch has raised:
    the [except] clause, the size check and the training. *)
Definition on_fetched (w : World) (metric_config : MetricConf)
    (payload : TrainerPayload) (_datum : Datum) (responses : list Response)
    (fetched : result DataFrame) : M (list Response) :=
  let retrain_config := retrain_conf metric_config in
  let numalogic_config := numalogic_conf metric_config in
  match fetched with
  | Raise _ => mret (responses ++ [as_success (id _datum)])
  | Ok train_df =>
      if Z.of_nat (len train_df) <? min_train_size retrain_config
      then mret (responses ++ [as_success (id _datum)])
      else
        _train_and_save w numalogic_config payload train_df ;;
        mret (responses ++ [as_success (id _datum)])
  end.

(** The body of the [for] loop, for the message reached at time [now]. *)
Definition run_datum (w : World) (now : Z) (_datum : Datum)
    (responses : list Response) : M (list Response) :=
  payload ← lift (value _datum);
  is_new ← is_new_request w now payload;
  if negb is_new then mret (responses ++ [as_success (id _datum)])
  else
    config_name ← lift (py_index (composite_keys payload) 0);
    metric_config ←
      lift (py_attr (get_metric_config w config_name (metric payload)));
    on_fetched w metric_config payload _datum responses
      (fetch_data w now payload).

Fixpoint run_loop (w : World) (datums : list (Z * Datum))
    (responses : list Response) : M (list Response) :=
  match datums with
  | [] => mret responses
  | (now, _datum) :: datums' =>
      responses' ← run_datum w now _datum responses;
      run_loop w datums' responses'
  end.

(** [run]: the messages of the batch, each with the time at which the
    loop reaches it. *)
Definition run (w : World) (datums : list (Z * Datum)) : M (list Response) :=
  run_loop w datums [].

End Train.

(* ------------------------------------------------------------------ *)
(** ** Sample data

    A configuration, a world and messages in the shape of the ones in
    [tests/test_trainer.py], used to run the definitions above. *)

Module Samples.
Import pd Train.
Open Scope string_scope.

Definition numalogic_cfg : NumalogicConf :=
  {| model := {| name := "VanillaAE" |};
     preprocess := [ {| name := "StandardScaler" |} ];
     trainer := "max_epochs=30";
     threshold := {| name := "StdDevThreshold" |} |}.

Definition metric_cfg (min_rows : Z) : MetricConf :=
  {| retrain_conf := {| min_train_size := min_rows |};
     numalogic_conf := numalogic_cfg |}.

Definition fetcher_cfg : DruidFetcherConf :=
  {| datasource := "metrics"; dimensions := ["ciStatus"];
     granularity := "minute"; aggregations := ["count"];
     group_by := ["timestamp"; "ciStatus"]; pivot := "ciStatus";
     hours := 36 |}.

Definition stream_cfg (src : DataSource) : StreamConf :=
  {| source := src;
     stream_composite_keys := ["assetAlias"];
     druid_fetcher := fetcher_cfg |}.

(** One series of two points starting at the requested start, without
    the rollout label. *)
Definition one_series (c : Prometheus.BackendCall)
  : result (list Prometheus.Series) :=
  Ok [ {| Prometheus.metric := [("namespace", "numalogic")];
          Prometheus.values :=
            [ (Num (Prometheus.call_start c), Num 1);
              (Num (Prometheus.call_start c + 30), Num 2) ] |} ].

(** A world over the parts the examples vary: the source and the
    minimum size, the client call, the first fitting stage and the
    registry. *)
Definition world_with (src : DataSource) (min_rows : Z)
    (get : Prometheus.BackendCall -> result (list Prometheus.Series))
    (fit : list ModelInfo -> Matrix -> result (Matrix * Artifact))
    (reg_save : Registry -> SaveCall -> result Z) : World :=
  {| REQUEST_EXPIRY := 300;
     get_ds_config := fun _ => Some (stream_cfg src);
     get_prom_config := Some {| server := "http://prometheus:9090" |};
     get_druid_config :=
       Some {| url := "http://druid"; endpoint := "druid/v2" |};
     get_metric_config := fun _ _ => Some (metric_cfg min_rows);
     http_get := get;
     druid_query := fun _ => Raise ConnectionError;
     preprocess_fit := fit;
     model_fit := fun _ _ x => Ok (x, 2);
     threshold_fit := fun _ _ => Ok 3;
     registry_save := reg_save |}.

(** Every collaborator answers; the registry numbers the versions by
    what it holds. *)
Definition world (src : DataSource) (min_rows : Z) : World :=
  world_with src min_rows one_series (fun _ x => Ok (x, 1))
    (fun reg _ => Ok (Z.of_nat (length (stored reg)))).




(** The time of the examples, and the frame the sample series makes
    for a request at that time. *)
Definition now1 : Z := 1700000000.

Definition fetched1 : DataFrame :=
  Frame None ["timestamp"; "metric_1"]
    [ Row (Num 0) [Num 1699870400; Num 1];
      Row (Num 1) [Num 1699870430; Num 2] ].

Definition payload1 : TrainerPayload :=
  {| uuid := "1";
     composite_keys := ["sandbox_numalogic_demo"; "metric_1"; "123456789"];
     metric := "metric_1" |}.

Definition payload2 : TrainerPayload :=
  {| uuid := "2";
     composite_keys := ["fciAsset"; "5984175597303660107"];
     metric := "failed" |}.

Definition prom_world : World := world PROMETHEUS 1.


Definition datum1 : Datum := {| id := "1"; value := Ok payload1 |}.

Definition state0 : State :=
  {| redis := ∅;
     registry := {| attempts := []; stored := [] |};
     stages := [] |}.

(** Frames with the rollout label. In the first, revisions "a" and "b"
    both report at timestamp 1. *)
Definition labelled_row (i t : Z) (v : cell) (revision : string) : row :=
  Row (Num i) [Num t; v; Str revision].

Definition rollout_frame : DataFrame :=
  Frame None ["timestamp"; "cpu"; PrometheusDataFetcher.rollout_label]
    [ labelled_row 0 0 (Num 1) "a"; labelled_row 1 1 (Num 5) "a";
      labelled_row 2 1 (Num 6) "b"; labelled_row 3 2 (Num 7) "b";
      labelled_row 4 3 (Num 9) "b" ].

Definition cleaned_rollout_frame : DataFrame :=
  Frame (Some "timestamp") ["index"; "cpu"]
    [ Row (Num 0) [Num 0; Num 1]; Row (Num 2) [Num 3; Num 7];
      Row (Num 3) [Num 4; Num 9] ].

(** In the second, revision "a" reports one value and then twelve
    missing ones, the last of them at timestamp 12, where revision "b"
    reports a missing value too. *)
Definition gap_frame : DataFrame :=
  Frame None ["timestamp"; "cpu"; PrometheusDataFetcher.rollout_label]
    (labelled_row 0 0 (Num 1) "a"
     :: map (fun i => labelled_row i i NaN "a")
          [1; 2; 3; 4; 5; 6; 7; 8; 9; 10; 11; 12]
     ++ [labelled_row 13 12 NaN "b"]).

(** A series without the rollout label whose first value is infinite,
    and the frame [query_metric] makes of it at [now1]. *)
Definition inf_series (c : Prometheus.BackendCall)
  : result (list Prometheus.Series) :=
  Ok [ {| Prometheus.metric := [("namespace", "numalogic")];
          Prometheus.values :=
            [ (Num (Prometheus.call_start c), Inf true);
              (Num (Prometheus.call_start c + 30), Num 5) ] |} ].

Definition inf_frame : DataFrame :=
  Frame None ["timestamp"; "cpu"]
    [ Row (Num 0) [Num 1699870400; Inf true];
      Row (Num 1) [Num 1699870430; Num 5] ].

End Samples.

(* ------------------------------------------------------------------ *)
(** ** Vocabulary of the statements *)

Section PaginatorVocabulary.
Import Prometheus.

Variable PROMETHEUS_SERVER : string.
Variable http_get : BackendCall -> result (list Series).

(** What one request contributes to the stitched result. *)
Definition fetched (call : BackendCall) : list Series :=
  match http_get call with
  | Ok results => results
  | Raise _ => []
  end.

(** The requests of [n] turns of the loop from [start]: consecutive
    spans of [11000 * step] seconds, at the caller's step. *)
Definition loop_calls (query : string) (step : Z) (n : nat) (start : Z)
  : list BackendCall :=
  map (fun k =>
         Build_BackendCall PROMETHEUS_SERVER query
           (start + Z.of_nat k * (11000 * step))
           (start + (Z.of_nat k + 1) * (11000 * step)) step)
    (seq 0 n).

(** The request after the loop, for what is left of the range: sent at
    the default step, and only if the rest counts at most 11000 points
    at that step. *)
Definition final_calls (query : string) (temp_start end_ : Z)
  : list BackendCall :=
  if (0 <? end_ - temp_start) && (end_ - temp_start <=? 11000 * default_step)
  then [Build_BackendCall PROMETHEUS_SERVER query temp_start end_ default_step]
  else [].

(** The spans of the requests follow one another from [start] to
    [end_]: no gap, no overlap, none empty. *)
Fixpoint partitions (start end_ : Z) (calls : list BackendCall) : Prop :=
  match calls with
  | [] => end_ <= start
  | call :: calls' =>
      call_start call = start /\ start < call_end call
      /\ call_end call <= end_
      /\ match calls' with
         | [] => call_end call = end_
         | _ => partitions (call_end call) end_ calls'
         end
  end.

End PaginatorVocabulary.

Section FrameVocabulary.
Import pd.

(** A cell that gap repair has nothing to do with. *)
Definition valid_cell (c : cell) : bool := negb (is_nan c) && negb (is_inf c).

Definition tidy_row (r : row) : Prop :=
  Forall (fun c => valid_cell c = true) (cells r).

(** A frame without missing or infinite values. *)
Definition tidy (df : DataFrame) : Prop := Forall tidy_row (rows df).

(** A row that no row of the other frame equals. *)
Definition unmatched (other : list row) (x : row) : bool :=
  match matches_in (cells x) other with
  | [] => true
  | _ => false
  end.

(** The value a forward fill carries is not an infinity. *)
Definition state_no_inf (s : fill_state) : Prop :=
  match s with Some (v, _) => is_inf v = false | None => True end.

End FrameVocabulary.

Section Vocabulary.
Import pd Train.

Variable w : World.

(** The acknowledgement owed to a message. *)
Definition ack (_datum : Datum) : Response := as_success (id _datum).

(** The registry answers this call with a version or with a
    [RedisRegistryError], whatever it holds. *)
Definition registry_errors_only (call : SaveCall) : Prop :=
  forall reg e, registry_save w reg call = Raise e -> e = RedisRegistryError.




(** Every command of the schedule is sent inside the expiry window that
    opens at [T]. *)
Definition in_window (T : Z) (schedule : list (bool * Z)) : Prop :=
  forall turn, turn ∈ schedule -> T <= turn.2 < T + REQUEST_EXPIRY w.

(** One call has returned "new" and its marker is live for the whole
    window; the other has not asked yet or was turned away. *)
Definition serial_state (T : Z) (key : string) (first_is_a : bool)
    (s : Sinks) : Prop :=
  let '(winner, other) :=
    if first_is_a then (pc_a s, pc_b s) else (pc_b s, pc_a s) in
  winner = Returned true
  /\ (other = AtGet \/ other = Returned false)
  /\ forall t, t < T + REQUEST_EXPIRY w ->
       truthy (redis_get t (shared s) key) = true.

(** Both calls have been told that the marker is absent. *)
Definition both_admitted_state (s : Sinks) : Prop :=
  (pc_a s = AtSetex \/ pc_a s = Returned true)
  /\ (pc_b s = AtSetex \/ pc_b s = Returned true).

End Vocabulary.

(* ------------------------------------------------------------------ *)
(** ** Further vocabulary *)

Section GateVocabulary.
Import Train.

(** A string without the separator of [request_key]. *)
Fixpoint colon_free (s : string) : bool :=
  match s with
  | EmptyString => true
  | String c s' => negb (Ascii.eqb c ":"%char) && colon_free s'
  end.

(** An identity none of whose parts holds a colon. *)
Definition plain_identity (payload : TrainerPayload) : Prop :=
  Forall (fun s => colon_free s = true)
    (composite_keys payload ++ [metric payload]).

End GateVocabulary.

(* ------------------------------------------------------------------ *)
(** ** Further sample data *)

Module MoreSamples.
Import pd Train Samples.
Open Scope string_scope.

Definition server1 : string := "http://prometheus:9090".

(** The request the sink sends for the first sample payload at [now1],
    and the series [one_series] answers it with. *)
Definition request1 : Prometheus.BackendCall :=
  Prometheus.Build_BackendCall server1 "metric_1{namespace='metric_1'}"
    1699870400 1700000000 30.

Definition series1 : Prometheus.Series :=
  {| Prometheus.metric := [("namespace", "numalogic")];
     Prometheus.values :=
       [ (Num 1699870400, Num 1); (Num 1699870430, Num 2) ] |}.

(** A backend that answers [request1] and no other request. *)
Definition picky_series (c : Prometheus.BackendCall)
  : result (list Prometheus.Series) :=
  if bool_decide (c = request1) then one_series c
  else Raise ConnectionError.

Definition picky_world : World :=
  world_with PROMETHEUS 1 picky_series (fun _ x => Ok (x, 1))
    (fun reg _ => Ok (Z.of_nat (length (stored reg)))).

(** The registry cannot be reached: its error is not a
    [RedisRegistryError]. *)
Definition unreachable_registry_world : World :=
  world_with PROMETHEUS 1 one_series (fun _ x => Ok (x, 1))
    (fun _ _ => Raise ConnectionError).


(** A message whose bytes do not decode. *)
Definition undecodable : Datum := {| id := "2"; value := Raise ValueError |}.

(** A request with the configuration name as its only key. *)
Definition short_payload : TrainerPayload :=
  {| uuid := "3";
     composite_keys := ["sandbox_numalogic_demo"];
     metric := "metric_1" |}.

Definition short_datum : Datum := {| id := "3"; value := Ok short_payload |}.

End MoreSamples.

(* ================================================================== *)
(** * Part II: properties *)
(* ================================================================== *)

(** Case analysis on the membership [H] of an element in a list that is
    written out. *)
Ltac elem_of_list H :=
  repeat (apply elem_of_cons in H as [H | H]);
  [.. | by apply elem_of_nil in H].

(* ------------------------------------------------------------------ *)
(** ** The range-query paginator *)

Section PaginatorFacts.
Import Prometheus.

Variable PROMETHEUS_SERVER : string.
Variable http_get : BackendCall -> result (list Series).

Lemma Qgtb_points a step k :
  0 < step ->
  Qgtb (inject_Z a / inject_Z step) (inject_Z k) = (k * step <? a).
Proof.
  intros Hstep. destruct step as [|p|p]; try lia.
  unfold Qgtb, Qle_bool, Qdiv, Qmult, Qinv, inject_Z. cbn.
  rewrite Z.mul_1_r, Z.mul_1_r, Pos.mul_1_l.
  destruct (Z.leb_spec a (k * Z.pos p)), (Z.ltb_spec (k * Z.pos p) a);
    cbn; (done || lia).
Qed.

Lemma data_points_pos start end_ step :
  0 < step ->
  data_points start end_ step
  = Ok (inject_Z (end_ - start) / inject_Z step)%Q.
Proof.
  intros Hstep. unfold data_points.
  destruct (step =? 0) eqn:E; [lia | done].
Qed.

Lemma query_range_limit_full query start step :
  0 < step ->
  query_range_limit PROMETHEUS_SERVER http_get query start
    (start + 11000 * step) step
  = Ok (fetched http_get
          (Build_BackendCall PROMETHEUS_SERVER query start
             (start + 11000 * step) step),
        [Build_BackendCall PROMETHEUS_SERVER query start
           (start + 11000 * step) step]).
Proof.
  intros Hstep. unfold query_range_limit. rewrite data_points_pos by done.
  cbn [mbind result_bind].
  rewrite (Qgtb_points _ step 11000) by done.
  destruct (Z.ltb_spec (11000 * step) (start + 11000 * step - start)); [lia|].
  unfold fetched. by destruct (http_get _).
Qed.

Lemma query_range_limit_final query start end_ :
  0 < end_ - start ->
  query_range_limit PROMETHEUS_SERVER http_get query start end_ default_step
  = Ok (flat_map (fetched http_get)
          (final_calls PROMETHEUS_SERVER query start end_),
        final_calls PROMETHEUS_SERVER query start end_).
Proof.
  intros Hpos. unfold query_range_limit, final_calls.
  rewrite data_points_pos by done. cbn [mbind result_bind].
  rewrite (Qgtb_points _ default_step 11000) by done.
  destruct (Z.ltb_spec 0 (end_ - start)); [|lia]. cbn [andb].
  destruct (Z.ltb_spec (11000 * default_step) (end_ - start)),
           (Z.leb_spec (end_ - start) (11000 * default_step));
    try lia; [done|].
  cbn [flat_map]. rewrite app_nil_r. unfold fetched. by destruct (http_get _).
Qed.

Lemma loop_calls_S query step n start :
  loop_calls PROMETHEUS_SERVER query step (S n) start
  = Build_BackendCall PROMETHEUS_SERVER query start
      (start + 11000 * step) step
    :: loop_calls PROMETHEUS_SERVER query step n (start + 11000 * step).
Proof.
  unfold loop_calls. cbn [seq map]. f_equal.
  - f_equal; lia.
  - rewrite <- seq_shift, map_map. apply map_ext. intros k.
    f_equal; lia.
Qed.

(** The loop, given fuel for its [n] turns, sends the [n] full requests
    and the final one, and stitches what they return. *)
Lemma query_range_loop_calls query end_ step n :
  0 < step ->
  forall fuel temp_start results calls,
    n = Z.to_nat ((end_ - temp_start - 1) / (11000 * step)) ->
    (n <= fuel)%nat ->
    query_range_loop PROMETHEUS_SERVER http_get fuel query end_ step
      temp_start results calls
    = Some (Ok (results
                ++ flat_map (fetched http_get)
                     (loop_calls PROMETHEUS_SERVER query step n temp_start
                      ++ final_calls PROMETHEUS_SERVER query
                           (temp_start + Z.of_nat n * (11000 * step)) end_),
                calls
                ++ loop_calls PROMETHEUS_SERVER query step n temp_start
                ++ final_calls PROMETHEUS_SERVER query
                     (temp_start + Z.of_nat n * (11000 * step)) end_)).
Proof.
  intros Hstep. induction n as [|n IH]; intros fuel temp_start results calls Hn Hfuel.
  - assert (end_ - temp_start <= 11000 * step) as Hfits.
    { destruct (Z.le_gt_cases (end_ - temp_start) (11000 * step)); [done|].
      assert (1 <= (end_ - temp_start - 1) / (11000 * step))
        by (apply Z.div_le_lower_bound; lia).
      lia. }
    replace (temp_start + Z.of_nat 0 * (11000 * step)) with temp_start by lia.
    cbn [loop_calls seq map app].
    destruct fuel; cbn [query_range_loop];
      rewrite data_points_pos by done;
      rewrite (Qgtb_points _ step 11000) by done;
      (destruct (Z.ltb_spec (11000 * step) (end_ - temp_start)); [lia|]);
      rewrite (Qgtb_points _ step 0) by done;
      (destruct (Z.ltb_spec (0 * step) (end_ - temp_start));
       [rewrite query_range_limit_final by lia; done|]);
      unfold final_calls;
      (destruct (Z.ltb_spec 0 (end_ - temp_start)); [lia|]);
      cbn; by rewrite !app_nil_r.
  - assert (11000 * step < end_ - temp_start) as Hmore.
    { destruct (Z.le_gt_cases (end_ - temp_start) (11000 * step)); [|lia].
      assert ((end_ - temp_start - 1) / (11000 * step) <= 0); [|lia].
      destruct (Z.le_gt_cases 0 (end_ - temp_start - 1)).
      - rewrite Z.div_small; lia.
      - assert ((end_ - temp_start - 1) / (11000 * step) < 0); [|lia].
        apply Z.div_lt_upper_bound; lia. }
    destruct fuel as [|fuel]; [lia|]. cbn [query_range_loop].
    rewrite data_points_pos by done.
    rewrite (Qgtb_points _ step 11000) by done.
    destruct (Z.ltb_spec (11000 * step) (end_ - temp_start)); [|lia].
    rewrite query_range_limit_full by done.
    rewrite IH; [| |lia].
    + rewrite loop_calls_S. cbn [app flat_map].
      rewrite <- !app_assoc. cbn [app].
      replace (temp_start + 11000 * step + Z.of_nat n * (11000 * step))
        with (temp_start + Z.of_nat (S n) * (11000 * step)) by lia.
      done.
    + replace (end_ - (temp_start + 11000 * step) - 1)
        with (end_ - temp_start - 1 + (-1) * (11000 * step)) by lia.
      rewrite Z.div_add by lia. lia.
Qed.

Lemma query_range_fuel_enough start end_ step :
  0 < step ->
  (Z.to_nat ((end_ - start - 1) / (11000 * step))
   <= query_range_fuel start end_ step)%nat.
Proof.
  intros Hstep. unfold query_range_fuel.
  assert ((end_ - start - 1) / (11000 * step)
          <= (end_ - start) / (11000 * step))
    by (apply Z.div_le_mono; lia).
  lia.
Qed.

(** [query_range] at a positive step: the requests sent and the result
    stitched from their replies. *)
Lemma query_range_calls query start end_ step :
  0 < step ->
  let n := Z.to_nat ((end_ - start - 1) / (11000 * step)) in
  let calls :=
    loop_calls PROMETHEUS_SERVER query step n start
    ++ final_calls PROMETHEUS_SERVER query
         (start + Z.of_nat n * (11000 * step)) end_ in
  query_range PROMETHEUS_SERVER http_get query start end_ step
  = Ok (flat_map (fetched http_get) calls, calls).
Proof.
  intros Hstep n calls. unfold query_range.
  rewrite (query_range_loop_calls query end_ step n Hstep);
    [done | done | by apply query_range_fuel_enough].
Qed.

Lemma partitions_loop_calls query end_ n :
  forall start,
    ((0 < n)%nat -> Z.of_nat n * (11000 * default_step) < end_ - start) ->
    end_ - start <= (Z.of_nat n + 1) * (11000 * default_step) ->
    partitions start end_
      (loop_calls PROMETHEUS_SERVER query default_step n start
       ++ final_calls PROMETHEUS_SERVER query
            (start + Z.of_nat n * (11000 * default_step)) end_).
Proof.
  induction n as [|n IH]; intros start Hlow Hhigh.
  - cbn [loop_calls seq map app].
    replace (start + Z.of_nat 0 * (11000 * default_step)) with start by lia.
    unfold final_calls.
    destruct (Z.ltb_spec 0 (end_ - start)),
             (Z.leb_spec (end_ - start) (11000 * default_step));
      cbn; lia.
  - rewrite loop_calls_S.
    replace (start + Z.of_nat (S n) * (11000 * default_step))
      with (start + 11000 * default_step
            + Z.of_nat n * (11000 * default_step)) by lia.
    assert (0 < S n)%nat as Hpos by lia. specialize (Hlow Hpos).
    specialize (IH (start + 11000 * default_step)).
    cbn [app partitions call_start call_end].
    split; [done|]. split; [unfold default_step; lia|]. split; [lia|].
    destruct (loop_calls _ _ _ n _ ++ final_calls _ _ _ _) eqn:Hrest.
    + assert (partitions (start + 11000 * default_step) end_ []) as Hnil
        by (apply IH; lia).
      cbn in Hnil. lia.
    + apply IH; lia.
Qed.

(** At the default step [query_range] does what is asked of it: the
    spans of its requests follow one another from [start] to [end_],
    each request is at that step and asks for 11000 points at most, the
    result is what the requests returned, in their order, and a range of
    11001 points takes two requests. *)
Lemma query_range_at_default_step query start end_ :
  exists calls,
    query_range PROMETHEUS_SERVER http_get query start end_ default_step
    = Ok (flat_map (fetched http_get) calls, calls)
    /\ partitions start end_ calls
    /\ Forall (fun call =>
                 call_step call = default_step
                 /\ call_end call - call_start call <= 11000 * default_step)
         calls
    /\ (end_ - start = 11001 * default_step -> length calls = 2%nat).
Proof.
  set (n := Z.to_nat ((end_ - start - 1) / (11000 * default_step))).
  exists (loop_calls PROMETHEUS_SERVER query default_step n start
          ++ final_calls PROMETHEUS_SERVER query
               (start + Z.of_nat n * (11000 * default_step)) end_).
  split; [by apply query_range_calls|].
  assert (0 < 11000 * default_step) as HW by done.
  split; [|split].
  - apply partitions_loop_calls.
    + intros Hn. subst n.
      assert (0 < (end_ - start - 1) / (11000 * default_step)) as Hq by lia.
      rewrite Z2Nat.id by lia.
      pose proof (Z.mul_div_le (end_ - start - 1) _ HW). lia.
    + subst n. destruct (Z.le_gt_cases 0 (end_ - start - 1)).
      * rewrite Z2Nat.id by (apply Z.div_pos; lia).
        pose proof (Z.mul_succ_div_gt (end_ - start - 1) _ HW). lia.
      * unfold default_step in *. lia.
  - apply Forall_app. split.
    + unfold loop_calls. rewrite Forall_map. apply Forall_true.
      intros k. cbn. split; [done | lia].
    + unfold final_calls.
      destruct (_ && _) eqn:Hc; [|constructor].
      apply andb_true_iff in Hc as [_ Hc%Z.leb_le].
      constructor; [|constructor]. split; [done|]. cbn [call_end call_start].
      exact Hc.
  - intros Hspan. subst n.
    replace (end_ - start - 1) with (11001 * default_step - 1) by lia.
    change (Z.to_nat ((11001 * default_step - 1) / (11000 * default_step)))
      with 1%nat.
    rewrite length_app. unfold final_calls, default_step in *.
    destruct (Z.ltb_spec 0 (end_ - (start + Z.of_nat 1 * (11000 * 30)))),
             (Z.leb_spec (end_ - (start + Z.of_nat 1 * (11000 * 30)))
                (11000 * 30));
      cbn; lia.
Qed.

(** C3 fails on the code. The request after the loop is sent without
    the caller's step, at the default of 30 seconds. At a step of 60
    seconds a range of 11000 points is refused by [query_range_limit]
    as too long, so nothing is requested and nothing returned; a range
    of 11001 points gets its second request at 30 seconds; and at a
    step of 400000 seconds a range of 11001 points gets one request
    only. *)
Theorem query_range_final_call_at_default_step query :
  query_range PROMETHEUS_SERVER http_get query 0 660000 60 = Ok ([], [])
  /\ query_range PROMETHEUS_SERVER http_get query 0 660060 60
     = Ok (fetched http_get
             (Build_BackendCall PROMETHEUS_SERVER query 0 660000 60)
           ++ fetched http_get
                (Build_BackendCall PROMETHEUS_SERVER query 660000 660060 30),
           [Build_BackendCall PROMETHEUS_SERVER query 0 660000 60;
            Build_BackendCall PROMETHEUS_SERVER query 660000 660060 30])
  /\ query_range PROMETHEUS_SERVER http_get query 0 4400400000 400000
     = Ok (fetched http_get
             (Build_BackendCall PROMETHEUS_SERVER query 0 4400000000 400000),
           [Build_BackendCall PROMETHEUS_SERVER query 0 4400000000 400000]).
Proof.
  split; [|split]; rewrite query_range_calls by done;
    match goal with
    | |- Ok (flat_map _ ?cs, _) = _ =>
        let cs' := eval vm_compute in cs in change cs with cs'
    end;
    cbn [flat_map app]; rewrite ?app_nil_r; reflexivity.
Qed.
End PaginatorFacts.

Section PaginatorTotal.
Import Prometheus.

Variable PROMETHEUS_SERVER : string.
Variable http_get : BackendCall -> result (list Series).

Lemma Qgtb_points_quotient a step :
  step <> 0 ->
  Qgtb (inject_Z a / inject_Z step) 11000 = true ->
  1 <= a / (11000 * step).
Proof.
  intros Hstep. destruct step as [|p|p]; [done| |].
  - intros H. change 11000%Q with (inject_Z 11000) in H.
    rewrite (Qgtb_points a (Z.pos p) 11000) in H by done.
    apply Z.ltb_lt in H. apply Z.div_le_lower_bound; lia.
  - unfold Qgtb, Qle_bool, Qdiv, Qmult, Qinv, inject_Z. cbn.
    rewrite Pos.mul_1_l. intros H%negb_true_iff%Z.leb_gt.
    rewrite <- (Z.div_opp_opp a) by lia.
    apply Z.div_le_lower_bound; lia.
Qed.

(** The fuel [query_range] gives its loop is enough at every step. *)
Lemma query_range_loop_total query end_ step fuel :
  forall temp_start results calls,
    (Z.to_nat ((end_ - temp_start) / (11000 * step)) < fuel)%nat ->
    query_range_loop PROMETHEUS_SERVER http_get fuel query end_ step
      temp_start results calls <> None.
Proof.
  induction fuel as [|fuel IH]; intros temp_start results calls Hfuel; [lia|].
  cbn [query_range_loop]. unfold data_points.
  destruct (step =? 0) eqn:Hstep; [done|]. apply Z.eqb_neq in Hstep.
  destruct (Qgtb _ 11000) eqn:Hmore.
  - apply Qgtb_points_quotient in Hmore; [|done].
    unfold query_range_limit, data_points.
    destruct (step =? 0) eqn:E; [lia|]. cbn [mbind result_bind].
    assert (forall r,
              query_range_loop PROMETHEUS_SERVER http_get fuel query end_ step
                (temp_start + 11000 * step) (results ++ r.1) (calls ++ r.2)
              <> None) as Hnext.
    { intros r. apply IH.
      replace (end_ - (temp_start + 11000 * step))
        with (end_ - temp_start + (-1) * (11000 * step)) by lia.
      rewrite Z.div_add by lia. lia. }
    destruct (Qgtb _ _); [apply (Hnext ([], []))|].
    destruct (http_get _) as [r|e]; [apply (Hnext (r, [_])) | apply (Hnext ([], [_]))].
  - destruct (Qgtb _ 0); [|done].
    by destruct (query_range_limit _ _ _ _ _ _) as [[? ?]|].
Qed.

Lemma query_range_total query start end_ step :
  query_range_loop PROMETHEUS_SERVER http_get
    (query_range_fuel start end_ step) query end_ step start [] []
  <> None.
Proof. apply query_range_loop_total. unfold query_range_fuel. lia. Qed.
End PaginatorTotal.

(* ------------------------------------------------------------------ *)
(** ** Frames *)

Section PandasFacts.
Import pd.

(** *** The order of cells *)

Lemma ascii_compare_refl a : Ascii.compare a a = Eq.
Proof. unfold Ascii.compare. apply N.compare_refl. Qed.

Lemma ascii_compare_lt_trans a b c :
  Ascii.compare a b = Lt -> Ascii.compare b c = Lt -> Ascii.compare a c = Lt.
Proof.
  unfold Ascii.compare. rewrite !N.compare_lt_iff. lia.
Qed.

Lemma string_leb_trans s1 s2 s3 :
  String.leb s1 s2 = true -> String.leb s2 s3 = true ->
  String.leb s1 s3 = true.
Proof.
  unfold String.leb. revert s2 s3.
  induction s1 as [|c1 s1 IH]; intros [|c2 s2] [|c3 s3]; cbn; try done.
  destruct (Ascii.compare c1 c2) eqn:E12; try done;
    destruct (Ascii.compare c2 c3) eqn:E23; try done.
  - apply Ascii.compare_eq_iff in E12, E23. subst.
    rewrite ascii_compare_refl. apply IH.
  - apply Ascii.compare_eq_iff in E12. subst. by rewrite E23.
  - apply Ascii.compare_eq_iff in E23. subst. by rewrite E12.
  - by rewrite (ascii_compare_lt_trans _ _ _ E12 E23).
Qed.

#[local] Instance cell_le_total : Total cell_le.
Proof.
  intros a b. unfold cell_le, cell_leb.
  destruct a as [|[]| |], b as [|[]| |]; cbn; auto.
  - destruct (Z.leb_spec z z0); [by left|right]. apply Z.leb_le. lia.
  - apply String.leb_total.
Qed.

#[local] Instance cell_le_trans : Transitive cell_le.
Proof.
  intros a b c. unfold cell_le, cell_leb.
  destruct a as [|[]| |], b as [|[]| |], c as [|[]| |]; cbn; try done.
  - rewrite !Z.leb_le. lia.
  - apply string_leb_trans.
Qed.

#[local] Instance key_le_total key : Total (key_le key).
Proof. intros a b. apply cell_le_total. Qed.

#[local] Instance key_le_trans key : Transitive (key_le key).
Proof. intros a b c. apply cell_le_trans. Qed.

Lemma sort_rows_sorted key rs out :
  sort_rows key rs = Ok out ->
  StronglySorted (key_le key) out /\ out ≡ₚ rs.
Proof.
  unfold sort_rows. destruct (_ && _); [done|]. intros [= <-]. split.
  - apply StronglySorted_merge_sort; apply _.
  - apply merge_sort_Permutation.
Qed.

(** *** Selection *)

Lemma select_map_filter {A} (f : A -> bool) (l : list A) :
  select (map f l) l = List.filter f l.
Proof.
  induction l as [|x l IH]; [done|]. cbn. rewrite IH. by destruct (f x).
Qed.

Lemma elem_of_select_keep (col : string) (cols : list string) :
  col ∉ select (map (fun c => negb (bool_decide (c = col))) cols) cols.
Proof.
  rewrite select_map_filter. rewrite list_elem_of_In, filter_In.
  intros [_ H]. by rewrite bool_decide_eq_true_2 in H.
Qed.

(** *** Filling *)

Lemma fill_row_valid limit st cs :
  Forall (fun c => is_nan c = false) cs ->
  (fill_row limit st cs).2 = cs.
Proof.
  revert st. induction cs as [|c cs IH]; intros st Hcs; [done|].
  inversion Hcs as [|? ? Hc Hcs']; subst. cbn.
  destruct (fill_cell limit (List.hd None st) c) as [s' c'] eqn:E.
  specialize (IH (List.tl st) Hcs').
  destruct (fill_row limit (List.tl st) cs) as [st' cs'']. cbn in *. subst.
  f_equal. destruct c; cbn in *; congruence.
Qed.

Lemma ffill_rows_valid limit st rs :
  Forall (fun r => Forall (fun c => is_nan c = false) (cells r)) rs ->
  ffill_rows limit st rs = rs.
Proof.
  revert st. induction rs as [|r rs IH]; intros st Hrs; [done|].
  inversion Hrs as [|? ? Hr Hrs']; subst. cbn.
  pose proof (fill_row_valid limit st (cells r) Hr) as E.
  destruct (fill_row limit st (cells r)) as [st' cs]. cbn in E. subst.
  rewrite IH by done. by destruct r.
Qed.

Lemma fill_row_no_inf limit st cs :
  Forall state_no_inf st ->
  Forall (fun c => is_inf c = false) cs ->
  Forall state_no_inf (fill_row limit st cs).1
  /\ Forall (fun c => is_inf c = false) (fill_row limit st cs).2.
Proof.
  revert st. induction cs as [|c cs IH]; intros st Hst Hcs; [by cbn|].
  inversion Hcs as [|? ? Hc Hcs']; subst. cbn.
  assert (state_no_inf (List.hd None st)) as Hhd
    by (destruct Hst; [exact I | done]).
  assert (Forall state_no_inf (List.tl st)) as Htl
    by (destruct Hst; [constructor | done]).
  destruct (IH (List.tl st) Htl Hcs') as [IH1 IH2].
  destruct (fill_row limit (List.tl st) cs) as [st' cs''].
  assert (state_no_inf (fill_cell limit (List.hd None st) c).1
          /\ is_inf (fill_cell limit (List.hd None st) c).2 = false) as [H1 H2].
  { unfold fill_cell.
    destruct c; try (by cbn; auto).
    destruct (List.hd None st) as [[v n]|]; [|done].
    cbn in Hhd. destruct (n <? limit)%nat; cbn; auto. }
  destruct (fill_cell limit (List.hd None st) c) as [s' c'].
  cbn in *. split; by constructor.
Qed.

Lemma ffill_rows_no_inf limit st rs :
  Forall state_no_inf st ->
  Forall (fun r => Forall (fun c => is_inf c = false) (cells r)) rs ->
  Forall (fun r => Forall (fun c => is_inf c = false) (cells r))
    (ffill_rows limit st rs).
Proof.
  revert st. induction rs as [|r rs IH]; intros st Hst Hrs; [by cbn|].
  inversion Hrs as [|? ? Hr Hrs']; subst. cbn.
  destruct (fill_row_no_inf limit st (cells r) Hst Hr) as [H1 H2].
  destruct (fill_row limit st (cells r)) as [st' cs]. cbn in *.
  constructor; [done|]. by apply IH.
Qed.

Lemma replace_inf_no_inf df :
  Forall (fun r => Forall (fun c => is_inf c = false) (cells r))
    (rows (replace_inf df)).
Proof.
  unfold replace_inf. cbn. rewrite Forall_map. apply Forall_true. intros r.
  cbn. rewrite Forall_map. apply Forall_true. by intros [].
Qed.

Lemma replace_inf_cells_id cs :
  Forall (fun c => is_inf c = false) cs -> map replace_inf_cell cs = cs.
Proof.
  induction 1 as [|c cs Hc _ IH]; [done|]. cbn. rewrite IH. f_equal.
  by destruct c.
Qed.

Lemma replace_inf_rows_id rs :
  Forall (fun r => Forall (fun c => is_inf c = false) (cells r)) rs ->
  map (fun r => Row (label r) (map replace_inf_cell (cells r))) rs = rs.
Proof.
  induction 1 as [|r rs Hr _ IH]; [done|]. cbn. rewrite IH. f_equal.
  rewrite replace_inf_cells_id by done. by destruct r.
Qed.

(** [replace] changes nothing in a frame without infinities. *)
Lemma replace_inf_id df :
  Forall (fun r => Forall (fun c => is_inf c = false) (cells r)) (rows df) ->
  replace_inf df = df.
Proof.
  intros Hinf. unfold replace_inf, with_rows.
  rewrite replace_inf_rows_id by done. by destruct df.
Qed.

Lemma replace_inf_tidy df : tidy df -> replace_inf df = df.
Proof.
  intros Htidy. apply replace_inf_id.
  eapply Forall_impl; [exact Htidy|].
  intros r Hr. eapply Forall_impl; [exact Hr|].
  intros c. unfold valid_cell. by destruct c.
Qed.

Lemma tidy_nan_free rs :
  Forall tidy_row rs ->
  Forall (fun r => Forall (fun c => is_nan c = false) (cells r)) rs.
Proof.
  intros H. eapply Forall_impl; [exact H|].
  intros r Hr. eapply Forall_impl; [exact Hr|].
  intros c. unfold valid_cell. by destruct c.
Qed.

Lemma tidy_isna_any df : tidy df -> isna_any df = false.
Proof.
  intros Htidy. unfold isna_any. apply not_true_is_false.
  rewrite existsb_exists. intros (r & Hr & Hnan).
  unfold row_has_nan in Hnan. apply existsb_exists in Hnan as (c & Hc & Hnan).
  unfold tidy in Htidy. rewrite Forall_forall in Htidy.
  apply list_elem_of_In in Hr, Hc.
  specialize (Htidy r Hr). unfold tidy_row in Htidy.
  rewrite Forall_forall in Htidy. specialize (Htidy c Hc).
  unfold valid_cell in Htidy. by destruct c.
Qed.

End PandasFacts.

(* ------------------------------------------------------------------ *)
(** ** The data cleaner *)

Section CleanerFacts.
Import pd PrometheusDataFetcher.

Lemma gap_repair_columns df limit out :
  gap_repair df limit = Ok out ->
  columns out = columns df /\ index_name out = index_name df.
Proof.
  unfold gap_repair, fillna_ffill, fillna_bfill.
  destruct (limit =? 0)%nat; [done|]. cbn.
  intros [= <-]. by case_match.
Qed.

(** A frame that has nothing to repair comes back as it is. *)
Lemma gap_repair_tidy df limit :
  limit <> 0%nat -> tidy df -> gap_repair df limit = Ok df.
Proof.
  intros Hlimit Htidy. unfold gap_repair, fillna_ffill, fillna_bfill.
  destruct (limit =? 0)%nat eqn:E; [by apply Nat.eqb_eq in E|]. cbn.
  pose proof (tidy_nan_free (rows df) Htidy) as Hnan.
  rewrite (ffill_rows_valid limit [] (rows df) Hnan).
  rewrite (ffill_rows_valid limit [] (rev (rows df)))
    by by apply Forall_rev.
  rewrite rev_involutive.
  change (existsb row_has_nan (rows df)) with (isna_any df).
  rewrite tidy_isna_any by done. by destruct df.
Qed.

(** What gap repair returns has no missing value, and no infinity when
    it was given none. *)
Lemma gap_repair_is_tidy df limit out :
  Forall (fun r => Forall (fun c => is_inf c = false) (cells r)) (rows df) ->
  gap_repair df limit = Ok out -> tidy out.
Proof.
  intros Hinf. unfold gap_repair, fillna_ffill, fillna_bfill.
  destruct (limit =? 0)%nat; [done|]. cbn.
  set (rs1 := ffill_rows limit [] (rows df)).
  set (rs2 := rev (ffill_rows limit [] (rev rs1))).
  assert (Forall (fun r => Forall (fun c => is_inf c = false) (cells r)) rs2)
    as Hinf2.
  { subst rs2 rs1. apply Forall_rev, ffill_rows_no_inf; [constructor|].
    apply Forall_rev, ffill_rows_no_inf; [constructor | done]. }
  intros [= <-]. unfold tidy, tidy_row, valid_cell.
  case_match eqn:Hany; cbn.
  - rewrite Forall_forall. intros r Hr.
    apply list_elem_of_In, filter_In in Hr as [Hr Hnan].
    apply list_elem_of_In in Hr.
    rewrite Forall_forall in Hinf2. specialize (Hinf2 r Hr).
    rewrite Forall_forall in Hinf2. rewrite Forall_forall. intros c Hc.
    rewrite (Hinf2 c Hc). unfold row_has_nan in Hnan.
    destruct (is_nan c) eqn:Hc'; [|done].
    exfalso. apply negb_true_iff, not_true_iff_false in Hnan. apply Hnan.
    apply existsb_exists. exists c. split; [by apply list_elem_of_In | done].
  - rewrite Forall_forall. intros r Hr.
    rewrite Forall_forall in Hinf2. specialize (Hinf2 r Hr).
    rewrite Forall_forall in Hinf2. rewrite Forall_forall. intros c Hc.
    rewrite (Hinf2 c Hc).
    destruct (is_nan c) eqn:Hc'; [|done].
    exfalso. unfold isna_any in Hany. apply not_true_iff_false in Hany.
    apply Hany. apply existsb_exists. exists r.
    split; [by apply list_elem_of_In|].
    apply existsb_exists. exists c. split; [by apply list_elem_of_In | done].
Qed.

(** C6, as the code has it. Cleaning twice with the same label list and
    the same limit gives what cleaning once gives, an exception
    included, whenever the list does not name the rollout label (or is
    [None]). *)
Theorem clean_idempotent_without_rollout df return_labels limit :
  (forall labels, return_labels = Some labels -> rollout_label ∉ labels) ->
  ((clean_data df return_labels limit).2
     ≫= fun cleaned => (clean_data cleaned return_labels limit).2)
  = (clean_data df return_labels limit).2.
Proof.
  intros Hlabels. unfold clean_data. cbn [snd].
  unfold clean_steps at 2 3.
  destruct (gap_repair (replace_inf df) limit) as [df3|e] eqn:Hrepair;
    [|done].
  assert (limit <> 0%nat) as Hlimit.
  { intros ->. by cbn in Hrepair. }
  cbn [mbind result_bind].
  destruct (empty df3) eqn:Hempty.
  - cbn. unfold clean_steps, gap_repair, fillna_ffill, fillna_bfill.
    destruct (limit =? 0)%nat eqn:E; [by apply Nat.eqb_eq in E|]. done.
  - destruct return_labels as [labels|]; [|done].
    rewrite bool_decide_eq_false_2 by by apply Hlabels.
    cbn. pose proof (gap_repair_is_tidy _ _ _ (replace_inf_no_inf df) Hrepair)
      as Htidy.
    rewrite replace_inf_tidy by done.
    unfold clean_steps. rewrite gap_repair_tidy by done. cbn.
    rewrite Hempty.
    by rewrite bool_decide_eq_false_2 by by apply Hlabels.
Qed.
End CleanerFacts.

Section OverlapFacts.
Import pd PrometheusDataFetcher.

Lemma cells_range_index (rs : list (list cell)) :
  map cells (range_index rs) = rs.
Proof.
  unfold range_index. change (map cells) with (fmap (M:=list) cells).
  rewrite fmap_imap. cbn.
  induction rs as [|cs rs IH]; [done|]. cbn. f_equal.
  rewrite <- IH at 2. done.
Qed.

Lemma cells_filter_combine_imap {T} (f : nat -> list cell -> row)
    (keep : T -> bool) (m : list (list cell * T)) :
  (forall i cs, cells (f i cs) = cs) ->
  map (fun p : row * T => cells p.1)
    (List.filter (fun p => keep p.2)
       (combine (imap f (map fst m)) (map snd m)))
  = map fst (List.filter (fun p => keep p.2) m).
Proof.
  revert f. induction m as [|[cs t] m IH]; intros f Hf; [done|].
  pose proof (IH (f ∘ S) (fun i cs' => Hf (S i) cs')) as IH'.
  cbn in *. destruct (keep t); cbn; by rewrite ?Hf, IH'.
Qed.

(** The rows that survive the merge and the query are, in their order,
    the rows of the left frame that equal no row of the right frame. *)
Lemma query_left_only_cells cols l r merged :
  merge_outer_indicator l r = Ok merged ->
  map cells (rows (query_left_only cols merged))
  = map cells (List.filter (unmatched (rows r)) (rows l)).
Proof.
  unfold merge_outer_indicator. case_bool_decide; [done|]. intros [= <-].
  unfold query_left_only, range_index. cbn [rows]. rewrite map_map.
  cbn [cells].
  match goal with
  | |- context [combine _ (map snd ?m)] =>
      pose proof (cells_filter_combine_imap
                    (fun i cs => Row (Num (Z.of_nat i)) cs)
                    (fun t => bool_decide (t = left_only)) m
                    (fun _ _ => eq_refl)) as E
  end.
  cbn beta in E. rewrite E. clear E.
  rewrite List.filter_app, map_app.
  assert (List.filter (fun p : list cell * indicator =>
                         bool_decide (p.2 = left_only))
            (flat_map
               (fun y : row =>
                  match matches_in (cells y) (rows l) with
                  | [] => [(cells y, right_only)]
                  | _ => []
                  end) (rows r)) = []) as ->.
  { induction (rows r) as [|y ys IH]; [done|]. cbn.
    rewrite List.filter_app, IH, app_nil_r.
    by destruct (matches_in (cells y) (rows l)). }
  cbn [map]. rewrite app_nil_r.
  induction (rows l) as [|x xs IH]; [done|]. cbn [flat_map List.filter].
  rewrite List.filter_app, map_app, IH. unfold unmatched.
  destruct (matches_in (cells x) (rows r)) as [|m ms]; [done|].
  assert (forall ms' : list row,
            List.filter (fun p : list cell * indicator =>
                           bool_decide (p.2 = left_only))
              (map (fun _ : row => (cells x, both)) ms') = []) as Hboth
    by (induction ms'; [done | by cbn]).
  cbn. by rewrite Hboth.
Qed.

Lemma occurrences_app k l1 l2 :
  occurrences k (l1 ++ l2) = (occurrences k l1 + occurrences k l2)%nat.
Proof. unfold occurrences. by rewrite List.filter_app, length_app. Qed.

Lemma occurrences_elem_of k l : k ∈ l -> (1 <= occurrences k l)%nat.
Proof.
  unfold occurrences. induction 1 as [k l | k y l _ IH]; cbn.
  - rewrite bool_decide_eq_true_2 by done. cbn. lia.
  - case_bool_decide; cbn; lia.
Qed.

(** Rows picked among those whose key occurs once have distinct keys. *)
Lemma NoDup_keys_occurring_once {A} (f : A -> cell) (P : A -> bool)
    (l : list A) :
  forall pre,
    (forall x, x ∈ l -> P x = true ->
       (occurrences (f x) (map f (pre ++ l)) < 2)%nat) ->
    NoDup (map f (List.filter P l)).
Proof.
  induction l as [|x l IH]; intros pre Honce; [constructor|].
  assert (NoDup (map f (List.filter P l))) as Hrest.
  { apply (IH (pre ++ [x])). intros y Hy HPy.
    rewrite <- app_assoc. apply Honce; [by right | done]. }
  cbn [List.filter]. destruct (P x) eqn:HPx; [|done].
  cbn [map]. apply NoDup_cons. split; [|done].
  intros Hin. apply list_elem_of_In, in_map_iff in Hin as (y & Hfy & Hy).
  apply filter_In in Hy as [Hy _].
  specialize (Honce x (ltac:(left)) HPx).
  rewrite map_app, occurrences_app in Honce. cbn [map] in Honce.
  change (f x :: map f l) with ([f x] ++ map f l) in Honce.
  rewrite occurrences_app in Honce.
  assert (1 <= occurrences (f x) [f x])%nat
    by (apply occurrences_elem_of; left).
  assert (1 <= occurrences (f x) (map f l))%nat.
  { apply occurrences_elem_of. rewrite <- Hfy.
    apply list_elem_of_In, in_map. done. }
  lia.
Qed.

(** What [drop_overlaps] keeps: the rollout column is gone, the rows are
    in ascending order of their label, no two of them have the same
    label, and every label is the timestamp of exactly one row of the
    frame it was given. *)
Lemma drop_overlaps_spec df j out :
  col_pos "timestamp" (columns df) = Some j ->
  drop_overlaps df = Ok out ->
  (rollout_label ∉ columns out)
  /\ StronglySorted (key_le label) (rows out)
  /\ NoDup (map label (rows out))
  /\ forall r, r ∈ rows out ->
       (occurrences (label r) (map (cell_at j) (rows df)) < 2)%nat.
Proof.
  intros Hj. unfold drop_overlaps.
  destruct (reset_index df) as [df4|] eqn:Hreset; [|done].
  cbn [mbind result_bind].
  unfold reset_index in Hreset.
  set (name := match index_name df with
               | Some n => n
               | None => if bool_decide ("index"%string ∈ columns df)
                         then "level_0"%string else "index"%string
               end) in Hreset.
  case_bool_decide as Hname; [done|]. injection Hreset as <-.
  assert (name <> "timestamp"%string) as Hneq.
  { intros ->. apply Hname. clear -Hj.
    revert j Hj. induction (columns df) as [|c cols IH]; intros j; [done|].
    cbn. case_bool_decide as Hc; [subst; left|].
    destruct (col_pos "timestamp" cols) as [j'|]; [|done].
    intros _. right. by apply (IH j'). }
  assert (col_pos "timestamp" (name :: columns df) = Some (S j)) as Hj4.
  { cbn. rewrite bool_decide_eq_false_2 by done. by rewrite Hj. }
  set (rows4 := range_index (map (fun r => label r :: cells r) (rows df))).
  unfold duplicated. cbn [columns rows]. rewrite Hj4. cbn [mbind result_bind].
  set (keys := map (cell_at (S j)) rows4).
  set (dups := loc_mask (map (fun k => (2 <=? occurrences k keys)%nat) keys)
                 (Frame None (name :: columns df) rows4)).
  destruct (merge_outer_indicator _ dups) as [merged|] eqn:Hmerge; [|done].
  cbn [mbind result_bind].
  unfold set_index. cbn [columns query_left_only]. rewrite Hj4.
  cbn [mbind result_bind].
  unfold drop_column. cbn [columns]. case_bool_decide as Hroll; [|done].
  cbn [mbind result_bind].
  unfold sort_values. cbn [columns index_name rows].
  rewrite bool_decide_eq_true_2 by done.
  case_match; [done|].
  destruct (sort_rows label _) as [sorted|] eqn:Hsort; [|done].
  cbn [fmap result_fmap]. intros [= <-].
  cbn [columns rows with_rows index_name].
  apply sort_rows_sorted in Hsort as [Hsorted Hperm].
  (* the labels before the sort are the timestamps of the unmatched rows *)
  assert (map label sorted
          ≡ₚ map (cell_at (S j)) (List.filter (unmatched (rows dups)) rows4))
    as Hlabels.
  { rewrite Hperm, !map_map. cbn [label].
    pose proof (query_left_only_cells (name :: columns df) _ _ _ Hmerge)
      as Hcells.
    cbn [rows] in Hcells.
    assert (forall rs, map (cell_at (S j)) rs
                       = map (fun cs => nth (S j) cs NaN) (map cells rs)) as E
      by (intros rs; by rewrite map_map).
    change (map (fun x : row => cell_at (S j) x)) with (map (cell_at (S j))).
    by rewrite (E (List.filter _ _)), <- Hcells, <- E. }
  (* and each of them occurs once among the timestamps *)
  assert (forall x, x ∈ rows4 -> unmatched (rows dups) x = true ->
            (occurrences (cell_at (S j) x) keys < 2)%nat) as Honce.
  { intros x Hx Hnomatch. apply Nat.nle_gt. intros Hdup.
    apply Nat.leb_le in Hdup.
    assert (x ∈ matches_in (cells x) (rows dups)) as Hin.
    { unfold matches_in, dups, loc_mask. cbn [rows with_rows]. subst keys.
      rewrite map_map, select_map_filter.
      apply list_elem_of_In, filter_In. split.
      - apply filter_In. split; [by apply list_elem_of_In | done].
      - by apply bool_decide_eq_true_2. }
    unfold unmatched in Hnomatch.
    destruct (matches_in (cells x) (rows dups)); [|done].
    by apply elem_of_nil in Hin. }
  assert (map (cell_at j) (rows df) = keys) as Hkeys.
  { subst keys rows4.
    assert (forall rs, map (cell_at (S j)) rs
                       = map (fun cs => nth (S j) cs NaN) (map cells rs)) as ->
      by (intros rs; by rewrite map_map).
    by rewrite cells_range_index, map_map. }
  split; [exact (elem_of_select_keep rollout_label
                   (delete (S j) (name :: columns df)))|].
  split; [done|]. split.
  - rewrite Hlabels.
    apply (NoDup_keys_occurring_once (cell_at (S j)) _ rows4 []).
    intros x Hx HPx. by apply Honce.
  - intros r Hr. rewrite Hkeys.
    assert (label r ∈ map label sorted) as Hl
      by (apply list_elem_of_In, in_map, list_elem_of_In; done).
    rewrite Hlabels in Hl.
    apply list_elem_of_In, in_map_iff in Hl as (x & <- & Hx).
    apply filter_In in Hx as [Hx HPx]. apply Honce; [|done].
    by apply list_elem_of_In.
Qed.

(** C5, as the code has it. When the label list names the rollout label
    and [clean_data] returns, its result has no rollout column, its rows
    are in ascending order of their timestamp, which is now the index,
    no two of them have the same timestamp, and none of them has a
    timestamp that two or more rows share in the frame that gap repair
    leaves. For a frame without missing or infinite values that frame
    is the input. *)
Theorem clean_drops_shared_timestamps df labels limit repaired j out :
  rollout_label ∈ labels ->
  col_pos "timestamp" (columns df) = Some j ->
  gap_repair (replace_inf df) limit = Ok repaired ->
  (clean_data df (Some labels) limit).2 = Ok out ->
  (rollout_label ∉ columns out)
  /\ StronglySorted (key_le label) (rows out)
  /\ NoDup (map label (rows out))
  /\ (forall t,
        (2 <= occurrences t (map (cell_at j) (rows repaired)))%nat ->
        t ∉ map label (rows out))
  /\ (limit <> 0%nat -> tidy df -> repaired = df).
Proof.
  intros Hlabels Hj Hrepair. unfold clean_data. cbn [snd].
  unfold clean_steps. rewrite Hrepair. cbn [mbind result_bind].
  assert (limit <> 0%nat -> tidy df -> repaired = df) as Htidy.
  { intros Hlimit Htidy. rewrite replace_inf_tidy in Hrepair by done.
    rewrite gap_repair_tidy in Hrepair by done. congruence. }
  destruct (empty repaired).
  { intros [= <-]. cbn.
    repeat split; [by intros ?%elem_of_nil | constructor | constructor
                  | by intros t _ ?%elem_of_nil | done]. }
  rewrite bool_decide_eq_true_2 by done. intros Hdrop.
  apply gap_repair_columns in Hrepair as Hcols. destruct Hcols as [Hcols _].
  assert (col_pos "timestamp" (columns repaired) = Some j) as Hj'
    by by rewrite Hcols.
  destruct (drop_overlaps_spec repaired j out Hj' Hdrop)
    as (Hroll & Hsorted & Hnodup & Hkept).
  repeat split; [done | done | done | | done].
  intros t Hshared Hin.
  apply list_elem_of_In, in_map_iff in Hin as (r & <- & Hr).
  apply list_elem_of_In, Hkept in Hr. lia.
Qed.

End OverlapFacts.

Section FetcherFacts.
Import pd PrometheusDataFetcher.

Variable prometheus_server : string.
Variable http_get : Prometheus.BackendCall -> result (list Prometheus.Series).

(** C10, as the code has it. When [query_metric] has returned a frame
    and cleaning it raises, [fetch_data] raises nothing and returns that
    frame with its infinities replaced by missing values, the in-place
    [replace] having run before the exception: no fill, no row dropped,
    no column dropped. A frame without infinities is returned as it
    came. *)
Theorem fetch_data_when_cleaning_raises now metric_name labels hours_
    scrape_interval return_labels raw sent e :
  Prometheus.query_metric prometheus_server http_get metric_name
    (now - hours_ * 3600) now labels return_labels scrape_interval
  = Ok (raw, sent) ->
  (clean_data raw return_labels 12).2 = Raise e ->
  fetch_data prometheus_server http_get now metric_name labels hours_
    scrape_interval return_labels
  = Ok (replace_inf raw)
  /\ (Forall (fun r => Forall (fun c => is_inf c = false) (cells r))
        (rows raw) ->
      replace_inf raw = raw).
Proof.
  intros Hquery Hclean. split.
  - unfold fetch_data. rewrite Hquery. cbn [mbind result_bind].
    unfold clean_data in *. cbn [snd] in Hclean. by rewrite Hclean.
  - apply replace_inf_id.
Qed.

End FetcherFacts.


(* ------------------------------------------------------------------ *)
(** ** The cleaner on the sample frames *)

Section CleanerExamples.
Import pd PrometheusDataFetcher Samples.

Lemma clean_rollout_frame :
  clean rollout_frame (Some [rollout_label]) = Ok cleaned_rollout_frame.
Proof. vm_compute. reflexivity. Qed.

(** C5 as stated fails: timestamp 12 is reported under both revisions,
    the row of "b" is dropped for its missing value, and the row of "a"
    at that timestamp stays in the result. *)
Lemma clean_keeps_timestamp_of_dropped_row :
  labelled_row 12 12 NaN "a" ∈ rows gap_frame
  /\ labelled_row 13 12 NaN "b" ∈ rows gap_frame
  /\ exists out,
       clean gap_frame (Some [rollout_label]) = Ok out
       /\ Num 12 ∈ map label (rows out).
Proof.
  split; [|split].
  - vm_compute. do 12 right. left.
  - vm_compute. do 13 right. left.
  - eexists. split; [vm_compute; reflexivity|].
    cbn. do 12 right. left.
Qed.

Lemma clean_drops_shared_timestamps_witness :
  (rollout_label ∉ columns cleaned_rollout_frame)
  /\ StronglySorted (key_le label) (rows cleaned_rollout_frame)
  /\ Num 1 ∉ map label (rows cleaned_rollout_frame).
Proof.
  destruct (clean_drops_shared_timestamps rollout_frame [rollout_label]
              12%nat rollout_frame 0%nat cleaned_rollout_frame)
    as (Hcols & Hsorted & _ & Hshared & _).
  - left.
  - reflexivity.
  - vm_compute. reflexivity.
  - vm_compute. reflexivity.
  - split; [exact Hcols|]. split; [exact Hsorted|].
    apply Hshared. vm_compute. lia.
Defined.

(** C6 as stated fails: the second cleaning looks for the rollout
    column that the first has dropped. *)
Lemma clean_twice_raises :
  clean rollout_frame (Some [rollout_label]) = Ok cleaned_rollout_frame
  /\ clean cleaned_rollout_frame (Some [rollout_label])
     = Raise (KeyError rollout_label).
Proof. split; vm_compute; reflexivity. Qed.

Lemma clean_idempotent_without_rollout_witness :
  ((clean_data gap_frame (Some []) 12).2
     ≫= fun cleaned => (clean_data cleaned (Some []) 12).2)
  = (clean_data gap_frame (Some []) 12).2.
Proof.
  apply (clean_idempotent_without_rollout gap_frame (Some []) 12).
  intros labels [= <-]. by intros ?%elem_of_nil.
Defined.

(** C10 as stated fails: cleaning raises for want of the rollout
    column, and the frame returned has a missing value where the fetched
    frame had an infinity. *)
Lemma fetch_data_returns_rewritten_frame :
  fst <$> Prometheus.query_metric "http://prometheus:9090" inf_series "cpu"
            (now1 - 36 * 3600) now1 [("namespace", "numalogic")]
            (Some [rollout_label]) 30
  = Ok inf_frame
  /\ clean inf_frame (Some [rollout_label]) = Raise (KeyError rollout_label)
  /\ fetch_data "http://prometheus:9090" inf_series now1 "cpu"
       [("namespace", "numalogic")] 36 30 (Some [rollout_label])
     <> Ok inf_frame.
Proof.
  split; [vm_compute; reflexivity|]. split; [vm_compute; reflexivity|].
  vm_compute. discriminate.
Qed.

Lemma fetch_data_when_cleaning_raises_witness :
  fetch_data "http://prometheus:9090" inf_series now1 "cpu"
    [("namespace", "numalogic")] 36 30 (Some [rollout_label])
  = Ok (replace_inf inf_frame).
Proof.
  eapply (fetch_data_when_cleaning_raises "http://prometheus:9090" inf_series
            now1 "cpu" [("namespace", "numalogic")] 36 30
            (Some [rollout_label]) inf_frame).
  - vm_compute. reflexivity.
  - vm_compute. reflexivity.
Defined.

End CleanerExamples.

(* ------------------------------------------------------------------ *)
(** ** The dedup gate *)

Section DedupGate.
Import Train.

Variable w : World.

Lemma redis_get_setex_live now now' client key v :
  now' < now + REQUEST_EXPIRY w ->
  redis_get now' (redis_setex now client key (REQUEST_EXPIRY w) v) key = Some v.
Proof.
  intros Hlive. unfold redis_get, redis_setex.
  rewrite lookup_insert_eq.
  destruct (now' <? now + REQUEST_EXPIRY w) eqn:E; [done | lia].
Qed.

Lemma request_key_same p q :
  composite_keys p = composite_keys q -> metric p = metric q ->
  request_key p = request_key q.
Proof. unfold request_key. by intros -> ->. Qed.





(** The two commands of [gate_step], sent one after the other with
    nothing in between, are [_is_new_request]. *)
Lemma gate_step_twice now p client :
  let '(pc, client') := gate_step w now p AtGet client in
  let '(pc', client'') := gate_step w now p pc client' in
  (pc', client'')
  = ((Returned (_is_new_request w now client p).1),
      (_is_new_request w now client p).2).
Proof.
  unfold gate_step, _is_new_request.
  by destruct (truthy (redis_get now client (request_key p))).
Qed.

(** *** Two sinks on one store *)

Section TwoSinks.

Variables pa pb : TrainerPayload.
Variable T : Z.

Hypothesis same_key : request_key pa = request_key pb.

Lemma serial_state_step first_is_a s turn :
  T <= turn.2 < T + REQUEST_EXPIRY w ->
  serial_state w T (request_key pa) first_is_a s ->
  serial_state w T (request_key pa) first_is_a (sinks_step w pa pb s turn).
Proof.
  destruct turn as [who t]; cbn [snd]. intros Ht.
  destruct s as [a b store]. unfold serial_state, sinks_step.
  destruct first_is_a, who; cbn -[redis_get truthy];
    intros (Hwin & Hother & Hlive); subst;
    try (by repeat split; auto).
  - destruct Hother as [-> | ->]; cbn -[redis_get truthy];
      [rewrite <- same_key, Hlive by lia|]; cbn; auto.
  - destruct Hother as [-> | ->]; cbn -[redis_get truthy];
      [rewrite Hlive by lia|]; cbn; auto.
Qed.

Lemma both_admitted_state_step s turn :
  both_admitted_state s ->
  both_admitted_state (sinks_step w pa pb s turn).
Proof.
  destruct turn as [who t], s as [a b store].
  unfold both_admitted_state, sinks_step.
  destruct who; cbn; intros [[-> | ->] [-> | ->]]; cbn; auto.
Qed.

Lemma serial_state_run first_is_a schedule s :
  in_window w T schedule ->
  serial_state w T (request_key pa) first_is_a s ->
  serial_state w T (request_key pa) first_is_a (fold_left (sinks_step w pa pb) schedule s).
Proof.
  revert s. induction schedule as [|turn schedule IH]; intros s Hw Hs; [done|].
  cbn [fold_left]. apply IH.
  - intros x Hx. apply Hw. by right.
  - apply serial_state_step; [apply Hw; left | done].
Qed.

Lemma both_admitted_state_run schedule s :
  both_admitted_state s ->
  both_admitted_state (fold_left (sinks_step w pa pb) schedule s).
Proof.
  revert s. induction schedule as [|turn schedule IH]; intros s Hs; [done|].
  cbn [fold_left]. by apply IH, both_admitted_state_step.
Qed.

(** C9, as the code has it. The gate sends [get] and [setex] as two
    commands. When two sinks sharing one store each make one call for
    the same key, every command falling in one expiry window that opens
    with no live marker, and both calls return: at least one returns
    "new", and both do exactly when the calls overlap. Calls that do not
    overlap admit one request only. *)
Theorem gate_two_sinks client schedule a b :
  (forall t, T <= t ->
     truthy (redis_get t client (request_key pa)) = false) ->
  in_window w T schedule ->
  pc_a (sinks_run w pa pb schedule client) = Returned a ->
  pc_b (sinks_run w pa pb schedule client) = Returned b ->
  a || b = true /\ a && b = overlapping schedule.
Proof.
  intros Hfresh Hw. unfold sinks_run.
  destruct schedule as [|[x t1] [|[y t2] schedule]]; [done| |].
  { cbn -[redis_get truthy]. unfold sinks_step; cbn -[redis_get truthy].
    destruct x; cbn -[redis_get truthy];
      destruct (truthy _); cbn; congruence. }
  assert (T <= t1 < T + REQUEST_EXPIRY w) as Ht1 by (apply (Hw (x, t1)); left).
  assert (T <= t2 < T + REQUEST_EXPIRY w) as Ht2
    by (apply (Hw (y, t2)); right; left).
  assert (in_window w T schedule) as Hw'
    by (intros z Hz; apply Hw; right; by right).
  cbn [fold_left overlapping].
  set (s2 := sinks_step w pa pb (sinks_step w pa pb _ (x, t1)) (y, t2)).
  assert (if xorb x y then both_admitted_state s2 else serial_state w T (request_key pa) x s2)
    as Hs2.
  { subst s2. unfold sinks_step, gate_step.
    destruct x, y; cbn -[redis_get truthy];
      rewrite <- ?same_key, ?Hfresh by lia; cbn -[redis_get truthy];
      rewrite <- ?same_key, ?Hfresh by lia; cbn -[redis_get truthy];
      unfold both_admitted_state, serial_state; cbn -[redis_get truthy];
      try (by auto);
      (split; [done | split; [by left |]]);
      intros t Ht; rewrite redis_get_setex_live by lia; done. }
  destruct (xorb x y).
  - pose proof (both_admitted_state_run schedule s2 Hs2) as [Ha Hb].
    intros Hpa Hpb. rewrite Hpa in Ha. rewrite Hpb in Hb.
    destruct Ha as [? | [= ->]], Hb as [? | [= ->]]; done.
  - pose proof (serial_state_run x schedule s2 Hw' Hs2) as Hfin.
    unfold serial_state in Hfin. intros Hpa Hpb.
    destruct x; cbn in Hfin; destruct Hfin as (Hwin & Hother & _);
      (destruct Hother as [Ho | Ho]; [congruence|]);
      destruct a, b; (done || congruence).
Qed.

End TwoSinks.
End DedupGate.


(** C9 as stated fails: two sinks whose calls for one key overlap inside
    one window are both told that the request is new. *)
Lemma gate_check_and_set_not_atomic :
  Train.pc_a
    (Train.sinks_run Samples.prom_world Samples.payload1 Samples.payload1
       [(true, 1000); (false, 1000); (true, 1001); (false, 1001)] ∅)
  = Train.Returned true
  /\ Train.pc_b
       (Train.sinks_run Samples.prom_world Samples.payload1 Samples.payload1
          [(true, 1000); (false, 1000); (true, 1001); (false, 1001)] ∅)
     = Train.Returned true.
Proof. vm_compute. split; reflexivity. Qed.

Lemma gate_two_sinks_witness :
  true || false = true
  /\ true && false
     = Train.overlapping [(true, 1000); (true, 1001); (false, 1002)].
Proof.
  apply (gate_two_sinks Samples.prom_world
           Samples.payload1 Samples.payload1 1000 eq_refl ∅
           [(true, 1000); (true, 1001); (false, 1002)] true false).
  - intros t _. reflexivity.
  - intros turn Hin. elem_of_list Hin; subst turn; cbn; lia.
  - vm_compute. reflexivity.
  - vm_compute. reflexivity.
Defined.

(* ------------------------------------------------------------------ *)
(** ** The sink loop *)

Section SinkLoop.
Import pd Train.
Variable w : World.

Lemma save_absorbed call st :
  registry_errors_only w call ->
  exists st',
    except_RedisRegistryError (save w call) st = (Ok tt, st')
    /\ redis st' = redis st /\ stages st' = stages st
    /\ attempts (registry st') = attempts (registry st) ++ [call]
    /\ stored (registry st')
       = stored (registry st)
         ++ match registry_save w (registry st) call with
            | Ok v => [(call, v)]
            | Raise _ => []
            end.
Proof.
  intros Honly. unfold except_RedisRegistryError, save.
  destruct (registry_save w (registry st) call) as [v|e] eqn:E.
  - eexists; split; [reflexivity|]. cbn. by rewrite ?app_nil_r.
  - rewrite (Honly _ _ E). eexists; split; [reflexivity|]. cbn.
    by rewrite ?app_nil_r.
Qed.

Lemma run_datum_rejected now _datum payload responses st :
  value _datum = Ok payload ->
  truthy (redis_get now (redis st) (request_key payload)) = true ->
  run_datum w now _datum responses st = (Ok (responses ++ [ack _datum]), st).
Proof.
  intros Hv Hmark. unfold run_datum. rewrite Hv.
  unfold mbind, M_bind, lift, is_new_request, _is_new_request.
  rewrite Hmark. cbn. by destruct st.
Qed.

Lemma run_datum_admitted now _datum payload responses st config_name
    metric_config :
  value _datum = Ok payload ->
  truthy (redis_get now (redis st) (request_key payload)) = false ->
  py_index (composite_keys payload) 0 = Ok config_name ->
  get_metric_config w config_name (metric payload) = Some metric_config ->
  run_datum w now _datum responses st
  = on_fetched w metric_config payload _datum responses
      (fetch_data w now payload)
      {| redis := redis_setex now (redis st) (request_key payload)
                    (REQUEST_EXPIRY w) "1";
         registry := registry st; stages := stages st |}.
Proof.
  intros Hv Hmark Hk Hc. unfold run_datum. rewrite Hv.
  unfold mbind, M_bind, lift, is_new_request, _is_new_request.
  rewrite Hmark. cbn. rewrite Hk, Hc. done.
Qed.

Lemma on_fetched_skips metric_config payload _datum responses fetched st :
  match fetched with
  | Ok train_df =>
      Z.of_nat (len train_df) < min_train_size (retrain_conf metric_config)
  | Raise _ => True
  end ->
  on_fetched w metric_config payload _datum responses fetched st
  = (Ok (responses ++ [ack _datum]), st).
Proof.
  unfold on_fetched. destruct fetched as [df|e]; [|done].
  intros Hlt. by rewrite (proj2 (Z.ltb_lt _ _) Hlt).
Qed.

(** C8. A request whose fetched and cleaned frame has fewer rows than
    [min_train_size] is acknowledged without the training pipeline
    being entered: no stage is called and the registry is not touched,
    whether the gate admitted the request or not. *)
Theorem small_frame_skips_training now _datum payload responses
    config_name metric_config train_df st :
  value _datum = Ok payload ->
  py_index (composite_keys payload) 0 = Ok config_name ->
  get_metric_config w config_name (metric payload) = Some metric_config ->
  fetch_data w now payload = Ok train_df ->
  Z.of_nat (len train_df) < min_train_size (retrain_conf metric_config) ->
  exists st',
    run_datum w now _datum responses st = (Ok (responses ++ [ack _datum]), st')
    /\ stages st' = stages st /\ registry st' = registry st.
Proof.
  intros Hv Hk Hc Hf Hlt.
  destruct (truthy (redis_get now (redis st) (request_key payload))) eqn:Hmark.
  - eexists. split; [by apply (run_datum_rejected _ _ payload)|done].
  - erewrite run_datum_admitted by done. rewrite Hf.
    rewrite on_fetched_skips by done. eexists; split; [done|done].
Qed.

Lemma _train_and_save_runs nc payload train_df st
    x_train preproc_clf x_reconerr anomaly_model thresh_clf :
  preprocess_fit w (preprocess nc) (to_numpy train_df)
  = Ok (x_train, preproc_clf) ->
  model_fit w (model nc) (trainer nc) x_train
  = Ok (x_reconerr, anomaly_model) ->
  threshold_fit w (threshold nc) x_reconerr = Ok thresh_clf ->
  _train_and_save w nc payload train_df st
  = (except_RedisRegistryError
       (save w (model_save_call nc payload train_df anomaly_model)) ;;
     except_RedisRegistryError
       (save w (preproc_save_call nc payload preproc_clf)) ;;
     except_RedisRegistryError
       (save w (thresh_save_call nc payload thresh_clf)))
      {| redis := redis st; registry := registry st;
         stages := stages st ++ [Preprocess; FitModel; FitThreshold] |}.
Proof.
  intros Hp Hm Ht.
  unfold _train_and_save, _preprocess, _train_model, _find_threshold.
  unfold mbind, M_bind, lift, log_stage. cbn.
  rewrite Hp. cbn. rewrite Hm. cbn. rewrite Ht. cbn.
  rewrite <- !app_assoc. done.
Qed.






End SinkLoop.

(* ------------------------------------------------------------------ *)
(** ** Fetching from a backend that has nothing to give *)

Section FetchDown.
Import pd Train.




End FetchDown.

(* ------------------------------------------------------------------ *)
(** ** The sink loop on the sample data *)

Section SinkExamples.
Import pd Train Samples.

Lemma fetch_data_sample :
  fetch_data prom_world now1 payload1 = Ok fetched1.
Proof. vm_compute. reflexivity. Qed.



Lemma small_frame_skips_training_witness :
  exists st',
    run_datum (world PROMETHEUS 2000) now1 datum1 [] state0
    = (Ok [ack datum1], st')
    /\ stages st' = stages state0 /\ registry st' = registry state0.
Proof.
  apply (small_frame_skips_training (world PROMETHEUS 2000) now1 datum1
           payload1 [] "sandbox_numalogic_demo"%string (metric_cfg 2000)
           fetched1 state0).
  - reflexivity.
  - reflexivity.
  - reflexivity.
  - vm_compute. reflexivity.
  - cbn. lia.
Defined.



End SinkExamples.
(* ------------------------------------------------------------------ *)
(** ** More on the paginator and on [query_metric] *)

Section PaginatorMore.
Import pd Prometheus.

Variable PROMETHEUS_SERVER : string.
Variable http_get : BackendCall -> result (list Series).






Lemma query_range_within_limit query start end_ step :
  0 < step ->
  0 < end_ - start <= 11000 * step ->
  query_range PROMETHEUS_SERVER http_get query start end_ step
  = query_range_limit PROMETHEUS_SERVER http_get query start end_
      default_step.
Proof.
  intros Hstep Hrange. rewrite query_range_calls by done.
  assert ((end_ - start - 1) / (11000 * step) = 0) as ->
    by (apply Z.div_small; lia).
  change (Z.to_nat 0) with 0%nat. cbn [loop_calls seq map app].
  replace (start + Z.of_nat 0 * (11000 * step)) with start by lia.
  by rewrite query_range_limit_final by lia.
Qed.

Lemma query_range_empty_range query start step :
  step <> 0 ->
  query_range PROMETHEUS_SERVER http_get query start start step
  = Ok ([], []).
Proof.
  intros Hstep. unfold query_range, query_range_fuel.
  cbn [query_range_loop]. unfold data_points.
  destruct (step =? 0) eqn:E; [lia|]. rewrite Z.sub_diag.
  by destruct step.
Qed.

(** X4. A range of at most 11000 points at the caller's positive step
    never reaches the loop, and [query_range] is then the one call of
    [query_range_limit] made without the step: whatever step the caller
    gave, the range is requested at the default step, or not at all
    when it counts more than 11000 points at that step. *)
Theorem query_range_within_limit_ignores_step query start end_ step :
  0 < step ->
  0 < end_ - start <= 11000 * step ->
  query_range PROMETHEUS_SERVER http_get query start end_ step
  = query_range_limit PROMETHEUS_SERVER http_get query start end_
      default_step
  /\ (forall results sent,
        query_range PROMETHEUS_SERVER http_get query start end_ step
        = Ok (results, sent) ->
        sent = final_calls PROMETHEUS_SERVER query start end_).
Proof.
  intros Hstep Hrange. split; [by apply query_range_within_limit|].
  intros results sent. rewrite query_range_within_limit by done.
  rewrite query_range_limit_final by lia. by intros [= _ <-].
Qed.

(** *** The frame of [query_metric] *)

Lemma mapM_result_Forall2 {A B} (f : A -> result B) (l : list A) :
  forall ys, mapM f l = Ok ys -> Forall2 (fun x y => f x = Ok y) l ys.
Proof.
  induction l as [|x l IH]; intros ys; cbn.
  - intros [= <-]. constructor.
  - destruct (f x) as [y|] eqn:Hfx; [|done]. cbn [mbind result_bind].
    destruct (mapM f l) as [k|]; [|done]. cbn [mbind result_bind].
    intros [= <-]. constructor; [done|]. by apply IH.
Qed.

Lemma assign_column_len name v df :
  len (assign_column name v df) = len df
  /\ index_name (assign_column name v df) = index_name df.
Proof.
  unfold assign_column, len.
  destruct (col_pos name (columns df)); cbn; by rewrite length_map.
Qed.

Lemma series_frame_len metric_name return_labels series df :
  series_frame metric_name return_labels series = Ok df ->
  len df = length (values series) /\ index_name df = None.
Proof.
  unfold series_frame. destruct (values series) as [|p ps] eqn:Hvalues; [done|].
  intros [= <-].
  set (_df := Frame None _ _).
  assert (len _df = length (p :: ps) /\ index_name _df = None) as Hstart.
  { subst _df. unfold len, range_index. cbn [rows index_name].
    rewrite length_imap. cbn [length]. by rewrite length_map. }
  revert Hstart. generalize _df. generalize (default [] return_labels).
  intros labels. induction labels as [|l labels IH]; intros d Hd; [done|].
  cbn [fold_left]. apply IH.
  destruct (dict_get l (metric series)); [|done].
  destruct (assign_column_len l (Str s) d) as [-> ->]. done.
Qed.

Lemma concat_len results frames metric_name return_labels :
  Forall2 (fun x y => series_frame metric_name return_labels x = Ok y)
    results frames ->
  len (concat frames) = length (flat_map values results)
  /\ index_name (concat frames) = None.
Proof.
  intros Hframes. split; [|done]. unfold concat, len, range_index.
  cbn [rows]. rewrite length_imap. generalize (union_columns frames).
  intros cols. induction Hframes as [|x y results frames Hxy _ IH]; [done|].
  cbn [flat_map]. rewrite !length_app, length_map, IH.
  apply series_frame_len in Hxy as [Hlen _]. unfold len in Hlen. lia.
Qed.

(** X5. The frame [query_metric] returns has one row for each sample
    of the series the paginator returned and an unnamed index; it is
    the empty frame when no series came back, and otherwise it has a
    timestamp column by which its rows are in ascending order. The
    requests are those of the paginator. *)
Theorem query_metric_frame metric_name start end_ labels_map return_labels
    step results sent df sent' :
  query_range PROMETHEUS_SERVER http_get
    (build_query metric_name labels_map) start end_ step
  = Ok (results, sent) ->
  query_metric PROMETHEUS_SERVER http_get metric_name start end_ labels_map
    return_labels step
  = Ok (df, sent') ->
  sent' = sent
  /\ index_name df = None
  /\ len df = length (flat_map values results)
  /\ (results = [] -> df = DataFrame_new)
  /\ (results <> [] ->
      exists j,
        col_pos "timestamp" (columns df) = Some j
        /\ StronglySorted (key_le (cell_at j)) (rows df)).
Proof.
  intros Hrange. unfold query_metric.
  destruct (end_ <? start); [done|]. rewrite Hrange.
  cbn [mbind result_bind].
  destruct (mapM _ results) as [frames|] eqn:Hframes; [|done].
  cbn [mbind result_bind].
  apply mapM_result_Forall2 in Hframes.
  pose proof (concat_len _ _ _ _ Hframes) as [Hlen Hname].
  destruct frames as [|frame frames].
  - intros [= <- <-]. apply Forall2_nil_inv_r in Hframes as ->.
    by repeat split.
  - assert (results <> []) as Hsome
      by (intros ->; by apply Forall2_nil_inv_l in Hframes).
    unfold sort_values. rewrite Hname.
    rewrite (bool_decide_false (None = Some "timestamp"%string)) by done.
    destruct (col_pos _ _) as [j|] eqn:Hpos; [|done].
    destruct (sort_rows _ _) as [sorted|] eqn:Hsort; [|done].
    cbn [fmap result_fmap mbind result_bind]. intros [= <- <-].
    apply sort_rows_sorted in Hsort as [Hsorted Hperm].
    split; [done|]. split; [done|]. split.
    { unfold len in *. cbn [rows with_rows]. by rewrite Hperm. }
    split; [done|]. intros _. exists j. by split.
Qed.
End PaginatorMore.

(* ------------------------------------------------------------------ *)
(** ** More on the cleaner *)

Section CleanerMore.
Import pd PrometheusDataFetcher.

(** *** Row counts *)

Lemma elem_of_List_filter {A} (f : A -> bool) (x : A) (l : list A) :
  x ∈ List.filter f l <-> x ∈ l /\ f x = true.
Proof. by rewrite !list_elem_of_In, filter_In. Qed.

Lemma elem_of_rev {A} (x : A) (l : list A) : x ∈ rev l <-> x ∈ l.
Proof. by rewrite !list_elem_of_In, <- in_rev. Qed.

Lemma length_fill_rows limit rs : forall st,
  length (ffill_rows limit st rs) = length rs.
Proof.
  induction rs as [|r rs IH]; intros st; [done|]. cbn.
  destruct (fill_row limit st (cells r)). cbn. by rewrite IH.
Qed.

Lemma gap_repair_len df limit out :
  gap_repair df limit = Ok out -> (len out <= len df)%nat.
Proof.
  unfold gap_repair, fillna_ffill, fillna_bfill.
  destruct (limit =? 0)%nat; [done|]. cbn [mbind result_bind rows with_rows].
  intros [= <-]. unfold len.
  assert (length (rev (ffill_rows limit []
                         (rev (ffill_rows limit [] (rows df)))))
          = length (rows df)) as Hlen
    by by rewrite length_rev, length_fill_rows, length_rev, length_fill_rows.
  case_match; cbn [rows dropna with_rows]; [|lia].
  rewrite <- Hlen. apply filter_length_le.
Qed.

Lemma reset_index_len df out :
  reset_index df = Ok out -> len out = len df.
Proof.
  unfold reset_index. case_bool_decide; [done|]. intros [= <-].
  unfold len, range_index. cbn. by rewrite length_imap, length_map.
Qed.

Lemma query_left_only_len cols l r merged :
  merge_outer_indicator l r = Ok merged ->
  (len (query_left_only cols merged) <= len l)%nat.
Proof.
  intros Hmerge. apply (query_left_only_cells cols) in Hmerge.
  apply (f_equal length) in Hmerge. rewrite !length_map in Hmerge.
  unfold len. rewrite Hmerge. apply filter_length_le.
Qed.

Lemma set_index_len col df out :
  set_index col df = Ok out -> len out = len df.
Proof.
  unfold set_index. case_match; [|done]. intros [= <-].
  unfold len. cbn. by rewrite length_map.
Qed.

Lemma drop_column_len col df out :
  drop_column col df = Ok out -> len out = len df.
Proof.
  unfold drop_column. case_bool_decide; [|done]. intros [= <-].
  unfold len. cbn. by rewrite length_map.
Qed.

Lemma sort_values_rows by_ df out :
  sort_values by_ df = Ok out ->
  rows out ≡ₚ rows df
  /\ columns out = columns df /\ index_name out = index_name df.
Proof.
  unfold sort_values.
  destruct (col_pos by_ (columns df)), (bool_decide _); try done;
    destruct (sort_rows _ _) as [sorted|] eqn:Hsort; try done;
    cbn [fmap result_fmap]; intros [= <-];
    apply sort_rows_sorted in Hsort as [_ Hperm]; done.
Qed.

Lemma drop_overlaps_len df out :
  drop_overlaps df = Ok out -> (len out <= len df)%nat.
Proof.
  unfold drop_overlaps.
  destruct (reset_index df) as [df4|] eqn:H4; [|done].
  cbn [mbind result_bind].
  destruct (duplicated _ df4) as [dup|]; [|done]. cbn [mbind result_bind].
  destruct (merge_outer_indicator _ _) as [merged|] eqn:Hm; [|done].
  cbn [mbind result_bind].
  destruct (set_index _ _) as [df6|] eqn:H6; [|done].
  cbn [mbind result_bind].
  destruct (drop_column _ _) as [df7|] eqn:H7; [|done].
  cbn [mbind result_bind]. intros Hsort.
  apply sort_values_rows in Hsort as [Hperm _].
  apply reset_index_len in H4. apply set_index_len in H6.
  apply drop_column_len in H7.
  apply (query_left_only_len (columns df4)) in Hm.
  unfold len in *. rewrite Hperm. lia.
Qed.

(** X6. Cleaning never adds rows: what [clean_data] returns has at most
    as many rows as the frame it was given, whatever the label list and
    the limit. *)
Theorem clean_never_adds_rows df return_labels limit out :
  (clean_data df return_labels limit).2 = Ok out ->
  (len out <= len df)%nat.
Proof.
  unfold clean_data. cbn [snd]. unfold clean_steps.
  destruct (gap_repair _ _) as [repaired|] eqn:Hrepair; [|done].
  cbn [mbind result_bind]. apply gap_repair_len in Hrepair.
  assert (len (replace_inf df) = len df) as Hlen
    by (unfold len, replace_inf; cbn; by rewrite length_map).
  destruct (empty repaired); [intros [= <-]; cbn; lia|].
  destruct return_labels as [labels|]; [|done].
  case_bool_decide; [|intros [= <-]; lia].
  intros Hdrop%drop_overlaps_len. lia.
Qed.

(** *** What the cleaned frame holds *)

Lemma tidy_cells rs :
  Forall tidy_row rs
  <-> Forall (Forall (fun c => valid_cell c = true)) (map cells rs).
Proof. by rewrite Forall_map. Qed.

Lemma Forall_select {A} (P : A -> Prop) (l : list A) :
  forall mask, Forall P l -> Forall P (select mask l).
Proof.
  induction l as [|x l IH]; intros [|b mask] Hl; cbn; try done.
  apply Forall_cons in Hl as [Hx Hl].
  destruct b; [constructor|]; auto.
Qed.

Lemma ffill_rows_labels (P : cell -> Prop) limit rs : forall st,
  Forall (fun r => P (label r)) rs ->
  Forall (fun r => P (label r)) (ffill_rows limit st rs).
Proof.
  induction rs as [|r rs IH]; intros st Hrs; [done|]. cbn.
  apply Forall_cons in Hrs as [Hr Hrs].
  destruct (fill_row limit st (cells r)). constructor; [done|]. by apply IH.
Qed.

Lemma gap_repair_labels (P : cell -> Prop) df limit out :
  gap_repair df limit = Ok out ->
  Forall (fun r => P (label r)) (rows df) ->
  Forall (fun r => P (label r)) (rows out).
Proof.
  unfold gap_repair, fillna_ffill, fillna_bfill.
  destruct (limit =? 0)%nat; [done|]. cbn [mbind result_bind rows with_rows].
  intros [= <-] Hdf.
  assert (Forall (fun r => P (label r))
            (rev (ffill_rows limit []
                    (rev (ffill_rows limit [] (rows df)))))) as Hfilled.
  { apply Forall_rev, ffill_rows_labels, Forall_rev.
    by apply ffill_rows_labels. }
  case_match; cbn [rows dropna with_rows]; [|done].
  rewrite Forall_forall in Hfilled. apply Forall_forall.
  intros r [Hr _]%elem_of_List_filter. by apply Hfilled.
Qed.

Lemma drop_overlaps_tidy df out :
  tidy df ->
  Forall (fun r => valid_cell (label r) = true) (rows df) ->
  drop_overlaps df = Ok out -> tidy out.
Proof.
  intros Htidy Hlabels. unfold drop_overlaps.
  destruct (reset_index df) as [df4|] eqn:H4; [|done].
  cbn [mbind result_bind].
  destruct (duplicated _ df4) as [dup|]; [|done]. cbn [mbind result_bind].
  destruct (merge_outer_indicator _ _) as [merged|] eqn:Hm; [|done].
  cbn [mbind result_bind].
  destruct (set_index _ _) as [df6|] eqn:H6; [|done].
  cbn [mbind result_bind].
  destruct (drop_column _ _) as [df7|] eqn:H7; [|done].
  cbn [mbind result_bind]. intros Hsort.
  apply sort_values_rows in Hsort as [Hperm _].
  unfold tidy. rewrite Hperm.
  assert (tidy df4) as Htidy4.
  { unfold reset_index in H4. case_bool_decide; [done|].
    injection H4 as <-. unfold tidy. apply tidy_cells. cbn [rows].
    rewrite cells_range_index, Forall_map.
    unfold tidy in Htidy. rewrite Forall_forall in Htidy, Hlabels.
    apply Forall_forall. intros r Hr. constructor; [by apply Hlabels|].
    by apply Htidy. }
  assert (tidy (query_left_only (columns df4) merged)) as Htidy5.
  { unfold tidy. apply tidy_cells.
    rewrite (query_left_only_cells _ _ _ _ Hm). apply tidy_cells.
    unfold tidy in Htidy4. rewrite Forall_forall in Htidy4.
    apply Forall_forall. intros r [Hr _]%elem_of_List_filter. by apply Htidy4. }
  assert (tidy df6) as Htidy6.
  { unfold set_index in H6. case_match; [|done]. injection H6 as <-.
    unfold tidy. cbn [rows]. rewrite Forall_map.
    eapply Forall_impl; [exact Htidy5|]. intros r Hr.
    unfold tidy_row. cbn [cells]. by apply Forall_delete. }
  unfold drop_column in H7. case_bool_decide; [|done]. injection H7 as <-.
  cbn [rows]. rewrite Forall_map.
  eapply Forall_impl; [exact Htidy6|]. intros r Hr.
  unfold tidy_row. cbn [cells]. by apply Forall_select.
Qed.

(** X7. What [clean_data] returns has no missing and no infinite
    value in any cell, whatever the label list, when the row labels of
    the frame are values themselves (as those of the fetched frame, a
    fresh range index, are). *)
Theorem clean_output_is_tidy df return_labels limit out :
  Forall (fun r => valid_cell (label r) = true) (rows df) ->
  (clean_data df return_labels limit).2 = Ok out ->
  tidy out.
Proof.
  intros Hlabels. unfold clean_data. cbn [snd]. unfold clean_steps.
  destruct (gap_repair _ _) as [repaired|] eqn:Hrepair; [|done].
  cbn [mbind result_bind].
  pose proof (gap_repair_is_tidy _ _ _ (replace_inf_no_inf df) Hrepair)
    as Htidy.
  destruct (empty repaired); [intros [= <-]; constructor|].
  destruct return_labels as [labels|]; [|done].
  case_bool_decide; [|by intros [= <-]].
  apply drop_overlaps_tidy; [done|].
  apply (gap_repair_labels (fun c => valid_cell c = true) _ _ _ Hrepair).
  unfold replace_inf. cbn [rows with_rows]. by rewrite Forall_map.
Qed.

Lemma ffill_rows_keeps limit r rs : forall st,
  r ∈ rs ->
  Forall (fun c => is_nan c = false) (cells r) ->
  r ∈ ffill_rows limit st rs.
Proof.
  induction rs as [|x rs IH]; intros st Hr Hvalid.
  - by apply elem_of_nil in Hr.
  - cbn. destruct (fill_row limit st (cells x)) as [st' cs] eqn:Hfill.
    apply elem_of_cons in Hr as [<-|Hr].
    + pose proof (fill_row_valid limit st (cells r) Hvalid) as Hsame.
      rewrite Hfill in Hsame. cbn in Hsame. subst cs.
      destruct r. left.
    + right. by apply IH.
Qed.

Lemma tidy_row_nan_free r :
  tidy_row r -> Forall (fun c => is_nan c = false) (cells r).
Proof.
  intros Hr. eapply Forall_impl; [exact Hr|]. intros c.
  unfold valid_cell. by destruct c.
Qed.

(** X8. Without the rollout label in the list, cleaning keeps every
    row that was complete: a row of the frame without a missing or
    infinite value is a row of the result, unchanged, provided the
    frame has a column at all. *)
Theorem clean_keeps_complete_rows df labels limit out r :
  rollout_label ∉ labels ->
  columns df <> [] ->
  r ∈ rows df ->
  tidy_row r ->
  (clean_data df (Some labels) limit).2 = Ok out ->
  r ∈ rows out.
Proof.
  intros Hlabels Hcols Hr Htidy. unfold clean_data. cbn [snd].
  unfold clean_steps.
  destruct (gap_repair _ _) as [repaired|] eqn:Hrepair; [|done].
  cbn [mbind result_bind].
  pose proof (gap_repair_columns _ _ _ Hrepair) as [Hcolumns _].
  assert (r ∈ rows repaired) as Hkept.
  { revert Hrepair. unfold gap_repair, fillna_ffill, fillna_bfill.
    destruct (limit =? 0)%nat; [done|].
    cbn [mbind result_bind rows with_rows]. intros [= <-].
    pose proof (tidy_row_nan_free r Htidy) as Hvalid.
    assert (r ∈ rev (ffill_rows limit []
                       (rev (ffill_rows limit []
                               (rows (replace_inf df)))))) as Hfilled.
    { apply elem_of_rev, ffill_rows_keeps; [|done].
      apply elem_of_rev, ffill_rows_keeps; [|done].
      unfold replace_inf. cbn [rows with_rows]. apply list_elem_of_fmap.
      exists r. split; [|done]. destruct r as [l cs]. cbn. f_equal.
      symmetry. apply replace_inf_cells_id. cbn in Htidy.
      eapply Forall_impl; [exact Htidy|]. intros c.
      unfold valid_cell. by destruct c. }
    case_match; cbn [rows dropna with_rows]; [|done].
    apply elem_of_List_filter. split; [done|].
    unfold row_has_nan. apply negb_true_iff.
    destruct (existsb is_nan (cells r)) eqn:Hex; [|done].
    apply existsb_exists in Hex as (c & Hc & Hnan).
    rewrite Forall_forall in Hvalid. apply list_elem_of_In in Hc.
    by rewrite (Hvalid c Hc) in Hnan. }
  assert (empty repaired = false) as ->.
  { unfold empty. rewrite Hcolumns. unfold replace_inf. cbn [columns with_rows].
    destruct (columns df); [done|].
    destruct (rows repaired); [by apply elem_of_nil in Hkept | done]. }
  case_bool_decide; [done|]. by intros [= <-].
Qed.

Lemma col_pos_lt name cols j :
  col_pos name cols = Some j -> (j < length cols)%nat.
Proof.
  revert j. induction cols as [|c cols IH]; intros j; [done|]. cbn.
  case_bool_decide; [intros [= <-]; lia|].
  destruct (col_pos name cols) as [k|]; [|done]. cbn. intros [= <-].
  specialize (IH k eq_refl). lia.
Qed.

(** X9. With the rollout label in the list, the frame the cleaner
    returns for a frame under an unnamed index is indexed by timestamp,
    and its first column is the former index, which [reset_index] has
    made a column called index and nothing drops again; the other
    columns are those of the frame without the timestamp and the
    rollout columns. *)
Theorem clean_rollout_columns df labels limit j out :
  rollout_label ∈ labels ->
  index_name df = None ->
  "index"%string ∉ columns df ->
  col_pos "timestamp" (columns df) = Some j ->
  (clean_data df (Some labels) limit).2 = Ok out ->
  out = DataFrame_new
  \/ (index_name out = Some "timestamp"%string
      /\ columns out
         = "index"%string
           :: List.filter (fun c => negb (bool_decide (c = rollout_label)))
                (delete j (columns df))).
Proof.
  intros Hlabels Hindex Hfree Hpos. unfold clean_data. cbn [snd].
  unfold clean_steps.
  destruct (gap_repair _ _) as [repaired|] eqn:Hrepair; [|done].
  cbn [mbind result_bind].
  pose proof (gap_repair_columns _ _ _ Hrepair) as [Hcolumns Hname].
  unfold replace_inf in Hcolumns, Hname. cbn in Hcolumns, Hname.
  destruct (empty repaired); [intros [= <-]; by left|].
  rewrite bool_decide_true by done. intros Hdrop. right.
  revert Hdrop. unfold drop_overlaps, reset_index.
  rewrite Hname, Hindex, Hcolumns.
  rewrite (bool_decide_false ("index"%string ∈ columns df)) by done.
  rewrite (bool_decide_false ("index"%string ∈ columns df)) by done.
  cbn [mbind result_bind].
  destruct (duplicated _ _) as [dup|]; [|done]. cbn [mbind result_bind].
  destruct (merge_outer_indicator _ _) as [merged|]; [|done].
  cbn [mbind result_bind].
  unfold set_index. cbn [columns query_left_only col_pos].
  rewrite bool_decide_false by done. rewrite Hpos. cbn [fmap option_fmap option_map].
  cbn [mbind result_bind]. unfold drop_column. cbn [columns].
  case_bool_decide; [|done]. cbn [mbind result_bind index_name].
  intros Hsort. apply sort_values_rows in Hsort as (_ & -> & ->).
  split; [done|]. cbn [columns delete list_delete].
  rewrite select_map_filter. cbn [List.filter].
  by change (bool_decide ("index"%string = rollout_label)) with false.
Qed.
End CleanerMore.

(* ------------------------------------------------------------------ *)
(** ** More on [PrometheusDataFetcher.fetch_data] *)

Section FetcherMore.
Import pd Prometheus PrometheusDataFetcher.

Variable prometheus_server : string.
Variable http_get : BackendCall -> result (list Series).

Lemma query_metric_index_name metric_name start end_ labels_map
    return_labels step df sent :
  query_metric prometheus_server http_get metric_name start end_ labels_map
    return_labels step = Ok (df, sent) ->
  index_name df = None.
Proof.
  unfold query_metric. destruct (end_ <? start); [done|].
  destruct (query_range _ _ _ _ _ _) as [[results sent0]|]; [|done].
  cbn [mbind result_bind].
  destruct (mapM _ results) as [frames|]; [|done]. cbn [mbind result_bind].
  destruct frames as [|frame frames]; [by intros [= <- _]|].
  destruct (sort_values _ _) as [sorted|] eqn:Hsort; [|done].
  cbn [mbind result_bind]. intros [= <- _].
  by apply sort_values_rows in Hsort as (_ & _ & ->).
Qed.

Lemma drop_overlaps_missing_column df :
  index_name df = None ->
  rollout_label ∉ columns df ->
  exists e, drop_overlaps df = Raise e.
Proof.
  intros Hname Hmissing. unfold drop_overlaps, reset_index. rewrite Hname.
  set (name := if bool_decide ("index"%string ∈ columns df)
               then "level_0"%string else "index"%string).
  assert (name <> rollout_label) as Hne
    by (subst name; by case_bool_decide).
  case_bool_decide; [by eexists|]. cbn [mbind result_bind].
  destruct (duplicated _ _) as [dup|]; [|by eexists].
  cbn [mbind result_bind].
  destruct (merge_outer_indicator _ _) as [merged|]; [|by eexists].
  cbn [mbind result_bind]. unfold set_index.
  cbn [columns query_left_only].
  destruct (col_pos _ _) as [j|]; [|by eexists]. cbn [mbind result_bind].
  unfold drop_column. cbn [columns].
  rewrite bool_decide_false; [by eexists|].
  intros Hin%list_elem_of_delete_inv.
  apply elem_of_cons in Hin as [Hin|Hin]; [by symmetry in Hin | done].
Qed.

(** X10. With [return_labels] left at its default of [None],
    [fetch_data] never returns repaired data: the membership test of
    the cleaner raises on [None] once gap repair has left a row, the
    exception is caught, and the frame returned is the fetched one with
    only its infinities replaced; it is the empty frame when gap repair
    leaves nothing. *)
Theorem fetch_data_default_labels_never_repairs now metric_name labels hours_
    scrape_interval raw sent :
  query_metric prometheus_server http_get metric_name (now - hours_ * 3600)
    now labels None scrape_interval
  = Ok (raw, sent) ->
  exists repaired,
    gap_repair (replace_inf raw) 12 = Ok repaired
    /\ fetch_data prometheus_server http_get now metric_name labels hours_
         scrape_interval None
       = Ok (if empty repaired then DataFrame_new else replace_inf raw).
Proof.
  intros Hquery. unfold fetch_data. rewrite Hquery. cbn [mbind result_bind].
  unfold clean_data, clean_steps.
  destruct (gap_repair (replace_inf raw) 12) as [repaired|] eqn:Hrepair;
    [|done].
  exists repaired. split; [done|]. cbn [mbind result_bind].
  by destruct (empty repaired).
Qed.

(** X11. When the fetched frame has no rollout column (no series
    carried the label) and the label list names it, as the list of the
    sink does, the cleaner cannot finish its de-duplication: [fetch_data]
    returns the fetched frame with only its infinities replaced, not
    filled and with its timestamp column in place, or the empty frame
    when gap repair leaves nothing. *)
Theorem fetch_data_without_rollout_column now metric_name labels hours_
    scrape_interval return_labels raw sent :
  rollout_label ∈ return_labels ->
  query_metric prometheus_server http_get metric_name (now - hours_ * 3600)
    now labels (Some return_labels) scrape_interval
  = Ok (raw, sent) ->
  rollout_label ∉ columns raw ->
  exists repaired,
    gap_repair (replace_inf raw) 12 = Ok repaired
    /\ fetch_data prometheus_server http_get now metric_name labels hours_
         scrape_interval (Some return_labels)
       = Ok (if empty repaired then DataFrame_new else replace_inf raw).
Proof.
  intros Hlabels Hquery Hmissing. unfold fetch_data. rewrite Hquery.
  cbn [mbind result_bind]. unfold clean_data, clean_steps.
  destruct (gap_repair (replace_inf raw) 12) as [repaired|] eqn:Hrepair;
    [|done].
  exists repaired. split; [done|]. cbn [mbind result_bind].
  destruct (empty repaired); [done|].
  rewrite bool_decide_true by done.
  pose proof (gap_repair_columns _ _ _ Hrepair) as [Hcolumns Hname].
  destruct (drop_overlaps_missing_column repaired) as [e ->]; [| |done].
  - rewrite Hname. unfold replace_inf. cbn [index_name with_rows].
    by eapply query_metric_index_name.
  - by rewrite Hcolumns.
Qed.

(** X12. A lookback that is not positive sends no request: with zero
    hours [fetch_data] returns the empty frame, and with negative hours
    the [ValueError] of [query_metric], raised before the [try] block,
    leaves [fetch_data]. *)
Theorem fetch_data_nonpositive_hours now metric_name labels hours_
    scrape_interval return_labels :
  hours_ <= 0 ->
  scrape_interval <> 0 ->
  query_metric prometheus_server http_get metric_name (now - hours_ * 3600)
    now labels return_labels scrape_interval
  = (if hours_ <? 0 then Raise ValueError else Ok (DataFrame_new, []))
  /\ fetch_data prometheus_server http_get now metric_name labels hours_
       scrape_interval return_labels
     = (if hours_ <? 0 then Raise ValueError else Ok DataFrame_new).
Proof.
  intros Hhours Hstep.
  assert (query_metric prometheus_server http_get metric_name
            (now - hours_ * 3600) now labels return_labels scrape_interval
          = (if hours_ <? 0 then Raise ValueError
             else Ok (DataFrame_new, []))) as Hquery.
  { unfold query_metric.
    destruct (Z.ltb_spec now (now - hours_ * 3600)),
             (Z.ltb_spec hours_ 0); try lia; [done|].
    replace (now - hours_ * 3600) with now by lia.
    by rewrite query_range_empty_range. }
  split; [done|]. unfold fetch_data. rewrite Hquery.
  destruct (hours_ <? 0); [done|]. cbn [mbind result_bind].
  unfold clean_data, clean_steps.
  by destruct return_labels.
Qed.
End FetcherMore.

(* ------------------------------------------------------------------ *)
(** ** More on the dedup gate *)

Section GateMore.
Import Train.
Variable w : World.


Lemma redis_get_setex_ne now now' client key key' v :
  key <> key' ->
  redis_get now' (redis_setex now client key (REQUEST_EXPIRY w) v) key'
  = redis_get now' client key'.
Proof.
  intros Hne. unfold redis_get, redis_setex. by rewrite lookup_insert_ne.
Qed.

(** *** The key of a request *)

Lemma append_nil_l (s : string) : ("" ++ s)%string = s.
Proof. reflexivity. Qed.

Lemma append_String c (x s : string) :
  (String c x ++ s)%string = String c (x ++ s)%string.
Proof. reflexivity. Qed.

Lemma append_nil_r (s : string) : (s ++ "")%string = s.
Proof. induction s as [|c s IH]; [done|]. by rewrite append_String, IH. Qed.

Lemma colon_split x y r1 r2 :
  colon_free x = true -> colon_free y = true ->
  (r1 = EmptyString \/ exists r, r1 = String ":"%char r) ->
  (r2 = EmptyString \/ exists r, r2 = String ":"%char r) ->
  (x ++ r1 = y ++ r2)%string ->
  x = y /\ r1 = r2.
Proof.
  revert y. induction x as [|c x IH]; intros [|c' y] Hx Hy Hr1 Hr2;
    rewrite ?append_nil_l, ?append_String.
  - done.
  - intros ->. destruct Hr1 as [[=] | [r [= -> _]]]. by cbn in Hy.
  - intros <-. destruct Hr2 as [[=] | [r [= -> _]]]. by cbn in Hx.
  - intros [= <- Heq]. cbn in Hx, Hy.
    apply andb_true_iff in Hx as [_ Hx]. apply andb_true_iff in Hy as [_ Hy].
    destruct (IH y Hx Hy Hr1 Hr2 Heq) as [-> ->]. done.
Qed.

Lemma concat_colon_tail l :
  match l with
  | [] => True
  | [x] => String.concat ":" l = (x ++ "")%string
  | x :: l' => String.concat ":" l
               = (x ++ String ":"%char (String.concat ":" l'))%string
  end.
Proof.
  destruct l as [|x [|y l']]; [done | | done].
  cbn [String.concat]. by rewrite append_nil_r.
Qed.

Lemma concat_colon_inj l1 :
  forall l2,
    l1 <> [] -> l2 <> [] ->
    Forall (fun s => colon_free s = true) l1 ->
    Forall (fun s => colon_free s = true) l2 ->
    String.concat ":" l1 = String.concat ":" l2 ->
    l1 = l2.
Proof.
  induction l1 as [|x l1 IH]; intros [|y l2] Hn1 Hn2 Hf1 Hf2; try done.
  apply Forall_cons in Hf1 as [Hx Hf1]. apply Forall_cons in Hf2 as [Hy Hf2].
  pose proof (concat_colon_tail (x :: l1)) as E1.
  pose proof (concat_colon_tail (y :: l2)) as E2.
  destruct l1 as [|x2 l1], l2 as [|y2 l2]; rewrite E1, E2; intros Heq.
  - apply colon_split in Heq as [-> _]; auto.
  - apply colon_split in Heq as [_ [=]]; eauto.
  - apply colon_split in Heq as [_ [=]]; eauto.
  - apply colon_split in Heq as [-> [= Heq]]; eauto.
    f_equal. by apply IH.
Qed.

Lemma request_key_inj p q :
  plain_identity p -> plain_identity q ->
  request_key p = request_key q ->
  composite_keys p = composite_keys q /\ metric p = metric q.
Proof.
  unfold plain_identity, request_key. intros Hp Hq. cbn. intros [= Heq].
  apply concat_colon_inj in Heq; [|by destruct (composite_keys p)
                                   |by destruct (composite_keys q)|done..].
  by apply app_inj_tail in Heq.
Qed.

(** X13. Requests none of whose keys or metric holds a colon have the same
    marker key exactly when they have the same composite keys and the
    same metric. *)
Theorem request_key_identifies p q :
  plain_identity p -> plain_identity q ->
  request_key p = request_key q
  <-> composite_keys p = composite_keys q /\ metric p = metric q.
Proof.
  intros Hp Hq. split; [by apply request_key_inj|].
  intros [Hk Hm]. by apply request_key_same.
Qed.

(** X14. The gate writes its own key only, so a request for one identity
    does not change the answer to a request for another: among
    colon-free identities, the answer to [q] after a call for [p] is the
    answer to [q] without that call. *)
Theorem gate_ignores_other_identities now now' client p q :
  plain_identity p -> plain_identity q ->
  composite_keys p <> composite_keys q \/ metric p <> metric q ->
  (_is_new_request w now' (_is_new_request w now client p).2 q).1
  = (_is_new_request w now' client q).1
  /\ forall key, key <> request_key p ->
       (_is_new_request w now client p).2 !! key = client !! key.
Proof.
  intros Hp Hq Hdiff.
  assert (request_key p <> request_key q) as Hne.
  { intros Heq. apply request_key_inj in Heq as [? ?]; [|done..].
    by destruct Hdiff. }
  split.
  - unfold _is_new_request at 2.
    destruct (truthy (redis_get now client (request_key p))); cbn [snd];
      [done|].
    unfold _is_new_request. rewrite redis_get_setex_ne by done.
    by destruct (truthy _).
  - intros key Hkey. unfold _is_new_request.
    destruct (truthy _); cbn [snd]; [done|].
    unfold redis_setex. by rewrite lookup_insert_ne by done.
Qed.

End GateMore.

(* ------------------------------------------------------------------ *)
(** ** More on the sink loop *)

Section SinkMore.
Import pd Train.
Variable w : World.

(** *** What the methods leave of the marker store *)






(** *** Whenever the loop returns *)

Lemma on_fetched_returns metric_config payload _datum responses fetched st
    responses' st' :
  on_fetched w metric_config payload _datum responses fetched st
  = (Ok responses', st') ->
  responses' = responses ++ [ack _datum].
Proof.
  unfold on_fetched. destruct fetched as [train_df|e]; [|by intros [= <- _]].
  destruct (_ <? _); [by intros [= <- _]|].
  unfold mbind, M_bind.
  destruct (_train_and_save _ _ _ _ _) as [[[]|e] st1]; [|done].
  by intros [= <- _].
Qed.

Lemma run_datum_returns now _datum responses st responses' st' :
  run_datum w now _datum responses st = (Ok responses', st') ->
  responses' = responses ++ [ack _datum].
Proof.
  unfold run_datum, mbind, M_bind, lift, is_new_request.
  destruct (value _datum) as [payload|]; [|done].
  destruct (_is_new_request w now (redis st) payload) as [[] client];
    cbn [negb]; [|by intros [= <- _]].
  destruct (py_index _ _); [|done]. destruct (py_attr _); [|done].
  apply on_fetched_returns.
Qed.

Lemma run_loop_returns datums :
  forall responses st responses',
    (run_loop w datums responses st).1 = Ok responses' ->
    responses' = responses ++ map (fun turn => ack turn.2) datums.
Proof.
  induction datums as [|[now _datum] datums IH]; intros responses st responses'.
  - cbn. intros [= <-]. by rewrite app_nil_r.
  - cbn [run_loop]. unfold mbind, M_bind.
    destruct (run_datum w now _datum responses st) as [[rs|e] st1] eqn:Hone;
      [|done].
    apply run_datum_returns in Hone as ->.
    intros Hrest%IH. rewrite Hrest. cbn. by rewrite <- app_assoc.
Qed.

(** X16. Whenever [run] returns, in any world, it returns one positive
    acknowledgement per message of the batch, in the order of the
    messages: no message is left out, answered twice or answered
    negatively. *)
Theorem run_returns_one_ack_each datums st responses :
  (run w datums st).1 = Ok responses ->
  responses = map (fun turn => ack turn.2) datums
  /\ Forall (fun r => success r = true) responses.
Proof.
  intros Hrun. apply run_loop_returns in Hrun as ->. cbn [app].
  split; [done|]. rewrite Forall_map. by apply Forall_true.
Qed.



(** X19. An exception of the model save that is not a
    [RedisRegistryError] is not caught: [_train_and_save] raises it and
    the two other saves are not attempted. *)
Theorem model_save_other_error_propagates nc payload train_df st
    x_train preproc_clf x_reconerr anomaly_model thresh_clf e :
  preprocess_fit w (preprocess nc) (to_numpy train_df)
  = Ok (x_train, preproc_clf) ->
  model_fit w (model nc) (trainer nc) x_train
  = Ok (x_reconerr, anomaly_model) ->
  threshold_fit w (threshold nc) x_reconerr = Ok thresh_clf ->
  registry_save w (registry st)
    (model_save_call nc payload train_df anomaly_model) = Raise e ->
  e <> RedisRegistryError ->
  exists st',
    _train_and_save w nc payload train_df st = (Raise e, st')
    /\ attempts (registry st')
       = attempts (registry st)
         ++ [model_save_call nc payload train_df anomaly_model]
    /\ stored (registry st') = stored (registry st).
Proof.
  intros Hp Hm Ht Hsave He.
  erewrite _train_and_save_runs by done.
  unfold mbind, M_bind, except_RedisRegistryError, save. cbn.
  rewrite Hsave. destruct e; try done; by eexists.
Qed.

Lemma run_loop_app ds1 :
  forall ds2 responses st,
    run_loop w (ds1 ++ ds2) responses st
    = match run_loop w ds1 responses st with
      | (Ok responses', st') => run_loop w ds2 responses' st'
      | (Raise e, st') => (Raise e, st')
      end.
Proof.
  induction ds1 as [|[now _datum] ds1 IH]; intros ds2 responses st; [done|].
  cbn [app run_loop]. unfold mbind, M_bind.
  destruct (run_datum w now _datum responses st) as [[rs|e] st1]; [|done].
  apply IH.
Qed.

(** X20. A message that does not decode makes [run] raise the decoder's
    exception. The messages before it have been processed, and the state
    keeps what they did, but their acknowledgements are not returned;
    the messages after it are not looked at. *)
Theorem run_raises_on_undecodable_message ds1 now _datum ds2 st e responses :
  value _datum = Raise e ->
  (run w ds1 st).1 = Ok responses ->
  run w (ds1 ++ (now, _datum) :: ds2) st = (Raise e, (run w ds1 st).2).
Proof.
  intros Hv Hbefore. unfold run in *. rewrite run_loop_app.
  destruct (run_loop w ds1 [] st) as [[rs|e'] st1]; [|done].
  cbn [run_loop snd]. unfold mbind at 1, M_bind at 1.
  unfold run_datum. rewrite Hv. done.
Qed.


(** X22. The same request delivered twice in one batch, the second time
    inside the expiry window: when the first is admitted, fetches enough
    rows and its stages fit, the batch gets two acknowledgements, the
    three stages are entered once and the registry is asked for exactly
    three saves, model, preprocessing, threshold, under the keys
    [composite_keys + [metric]]. *)
Theorem duplicate_request_trains_once t0 t1 d0 d1 p0 p1 config_name
    metric_config train_df st
    x_train preproc_clf x_reconerr anomaly_model thresh_clf :
  value d0 = Ok p0 ->
  value d1 = Ok p1 ->
  composite_keys p1 = composite_keys p0 ->
  metric p1 = metric p0 ->
  truthy (redis_get t0 (redis st) (request_key p0)) = false ->
  t1 < t0 + REQUEST_EXPIRY w ->
  py_index (composite_keys p0) 0 = Ok config_name ->
  get_metric_config w config_name (metric p0) = Some metric_config ->
  fetch_data w t0 p0 = Ok train_df ->
  min_train_size (retrain_conf metric_config) <= Z.of_nat (len train_df) ->
  preprocess_fit w (preprocess (numalogic_conf metric_config))
    (to_numpy train_df) = Ok (x_train, preproc_clf) ->
  model_fit w (model (numalogic_conf metric_config))
    (trainer (numalogic_conf metric_config)) x_train
  = Ok (x_reconerr, anomaly_model) ->
  threshold_fit w (threshold (numalogic_conf metric_config)) x_reconerr
  = Ok thresh_clf ->
  (forall call, registry_errors_only w call) ->
  exists st',
    run w [(t0, d0); (t1, d1)] st = (Ok [ack d0; ack d1], st')
    /\ stages st' = stages st ++ [Preprocess; FitModel; FitThreshold]
    /\ attempts (registry st')
       = attempts (registry st)
         ++ [model_save_call (numalogic_conf metric_config) p0 train_df
               anomaly_model;
             preproc_save_call (numalogic_conf metric_config) p0 preproc_clf;
             thresh_save_call (numalogic_conf metric_config) p0 thresh_clf]
    /\ Forall (fun call => skeys call = composite_keys p0 ++ [metric p0])
         (drop (length (attempts (registry st))) (attempts (registry st'))).
Proof.
  intros Hv0 Hv1 Hkeys Hmetric Hfresh Ht1 Hk Hc Hf Hsize Hp Hm Ht Hreg.
  unfold run. cbn [run_loop]. unfold mbind at 1, M_bind at 1.
  erewrite run_datum_admitted by done. rewrite Hf.
  unfold on_fetched. rewrite (proj2 (Z.ltb_ge _ _) Hsize).
  unfold mbind at 1, M_bind at 1.
  erewrite _train_and_save_runs by done.
  unfold mbind at 1 2 3, M_bind at 1 2 3.
  match goal with
  | |- context [except_RedisRegistryError _ ?s] => set (st1 := s)
  end.
  match goal with
  | |- context [except_RedisRegistryError (save w ?c) st1] =>
      destruct (save_absorbed w c st1 (Hreg c))
        as (st2 & -> & Hr2 & Hg2 & Ha2 & _)
  end.
  match goal with
  | |- context [except_RedisRegistryError (save w ?c) st2] =>
      destruct (save_absorbed w c st2 (Hreg c))
        as (st3 & -> & Hr3 & Hg3 & Ha3 & _)
  end.
  match goal with
  | |- context [except_RedisRegistryError (save w ?c) st3] =>
      destruct (save_absorbed w c st3 (Hreg c))
        as (st4 & -> & Hr4 & Hg4 & Ha4 & _)
  end.
  cbn [mret M_ret app].
  rewrite (run_datum_rejected w t1 d1 p1 _ st4); [|done|].
  - exists st4. split; [done|].
    assert (attempts (registry st4)
            = attempts (registry st)
              ++ [model_save_call (numalogic_conf metric_config) p0 train_df
                    anomaly_model;
                  preproc_save_call (numalogic_conf metric_config) p0
                    preproc_clf;
                  thresh_save_call (numalogic_conf metric_config) p0
                    thresh_clf]) as Hattempts.
    { rewrite Ha4, Ha3, Ha2. cbn. by rewrite <- !app_assoc. }
    split; [by rewrite Hg4, Hg3, Hg2|]. split; [done|].
    rewrite Hattempts, drop_app_length. by repeat constructor.
  - rewrite Hr4, Hr3, Hr2. cbn [redis st1].
    rewrite (request_key_same p1 p0) by done.
    by rewrite redis_get_setex_live.
Qed.

(** *** Where the data come from *)

(** X23. The Prometheus fetch of the sink rests on one reply of the
    backend: the request for the metric under the namespace of the
    second composite key, over the 36 hours before [now], at 30
    seconds. Two worlds that give this request the same reply give the
    same frame or the same exception, whatever they answer to any other
    request. *)
Theorem fetch_prometheus_data_one_request w' now payload prometheus_conf
    namespace :
  get_prom_config w = Some prometheus_conf ->
  get_prom_config w' = Some prometheus_conf ->
  py_index (composite_keys payload) 1 = Ok namespace ->
  http_get w'
    (Prometheus.Build_BackendCall (server prometheus_conf)
       (Prometheus.build_query (metric payload)
          [("namespace"%string, namespace)])
       (now - 36 * 3600) now 30)
  = http_get w
      (Prometheus.Build_BackendCall (server prometheus_conf)
         (Prometheus.build_query (metric payload)
            [("namespace"%string, namespace)])
         (now - 36 * 3600) now 30) ->
  fetch_prometheus_data w' now payload = fetch_prometheus_data w now payload.
Proof.
  intros Hconf Hconf' Hnamespace Hreply. unfold fetch_prometheus_data.
  rewrite Hconf, Hconf', Hnamespace. cbn [mbind result_bind].
  unfold PrometheusDataFetcher.fetch_data, Prometheus.query_metric.
  destruct (now <? now - 36 * 3600); [done|].
  rewrite !(query_range_within_limit _ _ _ _ _ 30) by lia.
  unfold Prometheus.query_range_limit, Prometheus.default_step.
  destruct (Prometheus.data_points _ _ _); [|done]. cbn [mbind result_bind].
  destruct (Prometheus.Qgtb _ _); [done|]. by rewrite Hreply.
Qed.

(** X24. A request whose source cannot be resolved is acknowledged and
    skipped: when the stream configuration of its first key is absent,
    or the source is Prometheus, configured, and the request has no
    second key to name the namespace, [fetch_data] raises, the loop
    catches it, and the message is acknowledged with the marker set, no
    stage entered and no save attempted. *)
Theorem unresolvable_source_is_skipped now _datum payload responses
    config_name metric_config st :
  value _datum = Ok payload ->
  truthy (redis_get now (redis st) (request_key payload)) = false ->
  py_index (composite_keys payload) 0 = Ok config_name ->
  get_metric_config w config_name (metric payload) = Some metric_config ->
  get_ds_config w config_name = None
  \/ (exists stream_config,
        get_ds_config w config_name = Some stream_config
        /\ source stream_config = PROMETHEUS
        /\ get_prom_config w <> None
        /\ length (composite_keys payload) = 1%nat) ->
  (exists e, fetch_data w now payload = Raise e)
  /\ run_datum w now _datum responses st
     = (Ok (responses ++ [ack _datum]),
        {| redis := redis_setex now (redis st) (request_key payload)
                      (REQUEST_EXPIRY w) "1";
           registry := registry st; stages := stages st |}).
Proof.
  intros Hvalue Hfresh Hname Hmetric Hsource.
  assert (exists e, fetch_data w now payload = Raise e) as [e Hfetch].
  { unfold fetch_data. rewrite Hname. cbn [mbind result_bind].
    destruct Hsource as [->|(stream_config & -> & Hsrc & Hprom & Hlen)];
      [by eexists|].
    cbn [py_attr mbind result_bind]. rewrite Hsrc.
    unfold fetch_prometheus_data.
    destruct (get_prom_config w); [|done].
    destruct (composite_keys payload) as [|k [|k' ks]]; try done.
    by eexists. }
  split; [by eexists|].
  rewrite (run_datum_admitted w now _datum payload responses st config_name
             metric_config) by done.
  rewrite Hfetch. by apply on_fetched_skips.
Qed.
End SinkMore.

(* ------------------------------------------------------------------ *)
(** ** The further properties on the sample data *)

Section PaginatorMoreExamples.
Import pd Prometheus Samples MoreSamples.




Lemma query_range_within_limit_ignores_step_witness :
  query_range server1 one_series "cpu" 0 600 60
  = query_range_limit server1 one_series "cpu" 0 600 default_step
  /\ (forall results sent,
        query_range server1 one_series "cpu" 0 600 60 = Ok (results, sent) ->
        sent = final_calls server1 "cpu" 0 600).
Proof.
  apply (query_range_within_limit_ignores_step server1 one_series "cpu"
           0 600 60); lia.
Defined.

Lemma query_metric_frame_witness :
  index_name fetched1 = None
  /\ len fetched1 = 2%nat
  /\ exists j,
       col_pos "timestamp" (columns fetched1) = Some j
       /\ StronglySorted (key_le (cell_at j)) (rows fetched1).
Proof.
  destruct (query_metric_frame server1 one_series "metric_1"
              (now1 - 36 * 3600) now1 [("namespace", "metric_1")]%string
              (Some [PrometheusDataFetcher.rollout_label]) 30
              [series1] [request1] fetched1 [request1])
    as (_ & Hname & Hlen & _ & Hsorted).
  - vm_compute. reflexivity.
  - vm_compute. reflexivity.
  - split; [exact Hname|]. split; [exact Hlen|]. apply Hsorted. discriminate.
Defined.

End PaginatorMoreExamples.

Section CleanerMoreExamples.
Import pd PrometheusDataFetcher Samples MoreSamples.

Lemma clean_never_adds_rows_witness :
  (len cleaned_rollout_frame <= len rollout_frame)%nat.
Proof.
  apply (clean_never_adds_rows rollout_frame (Some [rollout_label]) 12
           cleaned_rollout_frame).
  vm_compute. reflexivity.
Defined.

Lemma clean_output_is_tidy_witness : tidy cleaned_rollout_frame.
Proof.
  apply (clean_output_is_tidy rollout_frame (Some [rollout_label]) 12
           cleaned_rollout_frame).
  - repeat constructor.
  - vm_compute. reflexivity.
Defined.

Lemma clean_keeps_complete_rows_witness :
  exists out,
    clean inf_frame (Some []) = Ok out
    /\ Row (Num 1) [Num 1699870430; Num 5] ∈ rows out.
Proof.
  eexists. split; [reflexivity|].
  apply (clean_keeps_complete_rows inf_frame [] 12).
  - apply (bool_decide_unpack _). vm_compute. exact I.
  - discriminate.
  - right. left.
  - repeat constructor.
  - reflexivity.
Defined.

Lemma clean_rollout_columns_witness :
  index_name cleaned_rollout_frame = Some "timestamp"%string
  /\ columns cleaned_rollout_frame = ["index"; "cpu"]%string.
Proof.
  destruct (clean_rollout_columns rollout_frame [rollout_label] 12 0
              cleaned_rollout_frame) as [Hempty | [Hname Hcolumns]].
  - left.
  - reflexivity.
  - apply (bool_decide_unpack _). vm_compute. exact I.
  - reflexivity.
  - vm_compute. reflexivity.
  - discriminate Hempty.
  - split; [exact Hname | exact Hcolumns].
Defined.

Lemma fetch_data_default_labels_never_repairs_witness :
  exists repaired,
    gap_repair (replace_inf inf_frame) 12 = Ok repaired
    /\ fetch_data server1 inf_series now1 "cpu"
         [("namespace", "numalogic")]%string 36 30 None
       = Ok (if empty repaired then DataFrame_new else replace_inf inf_frame).
Proof.
  apply (fetch_data_default_labels_never_repairs server1 inf_series now1
           "cpu" [("namespace", "numalogic")]%string 36 30 inf_frame
           [Prometheus.Build_BackendCall server1
              "cpu{namespace='numalogic'}" 1699870400 1700000000 30]).
  vm_compute. reflexivity.
Defined.

Lemma fetch_data_without_rollout_column_witness :
  exists repaired,
    gap_repair (replace_inf inf_frame) 12 = Ok repaired
    /\ fetch_data server1 inf_series now1 "cpu"
         [("namespace", "numalogic")]%string 36 30 (Some [rollout_label])
       = Ok (if empty repaired then DataFrame_new else replace_inf inf_frame).
Proof.
  apply (fetch_data_without_rollout_column server1 inf_series now1
           "cpu" [("namespace", "numalogic")]%string 36 30 [rollout_label]
           inf_frame
           [Prometheus.Build_BackendCall server1
              "cpu{namespace='numalogic'}" 1699870400 1700000000 30]).
  - left.
  - vm_compute. reflexivity.
  - apply (bool_decide_unpack _). vm_compute. exact I.
Defined.

Lemma fetch_data_nonpositive_hours_witness :
  Prometheus.query_metric server1 one_series "cpu" (now1 - 0 * 3600) now1 []
    None 30
  = Ok (DataFrame_new, [])
  /\ fetch_data server1 one_series now1 "cpu" [] 0 30 None = Ok DataFrame_new.
Proof.
  apply (fetch_data_nonpositive_hours server1 one_series now1 "cpu" [] 0 30
           None); lia.
Defined.

End CleanerMoreExamples.

Section GateMoreExamples.
Import Train Samples MoreSamples.

Lemma request_key_identifies_witness :
  request_key payload1 = request_key payload2
  <-> composite_keys payload1 = composite_keys payload2
      /\ metric payload1 = metric payload2.
Proof.
  apply (request_key_identifies payload1 payload2); repeat constructor.
Defined.

Lemma gate_ignores_other_identities_witness :
  (_is_new_request prom_world 1100
     (_is_new_request prom_world 1000 ∅ payload1).2 payload2).1
  = (_is_new_request prom_world 1100 ∅ payload2).1
  /\ forall key, key <> request_key payload1 ->
       (_is_new_request prom_world 1000 ∅ payload1).2 !! key
       = (∅ : redis_client_t) !! key.
Proof.
  apply (gate_ignores_other_identities prom_world 1000 1100 ∅ payload1
           payload2).
  - repeat constructor.
  - repeat constructor.
  - left. discriminate.
Defined.


End GateMoreExamples.

Section SinkMoreExamples.
Import pd Train Samples MoreSamples.

Lemma run_returns_one_ack_each_witness :
  [ack datum1; ack datum1]
  = map (fun turn => ack turn.2) [(now1, datum1); (now1 + 10, datum1)]
  /\ Forall (fun r => success r = true) [ack datum1; ack datum1].
Proof.
  apply (run_returns_one_ack_each prom_world
           [(now1, datum1); (now1 + 10, datum1)] state0).
  vm_compute. reflexivity.
Defined.



Lemma model_save_other_error_propagates_witness :
  exists st',
    _train_and_save unreachable_registry_world numalogic_cfg payload1
      fetched1 state0
    = (Raise ConnectionError, st')
    /\ attempts (registry st')
       = (attempts (registry state0)
          ++ [model_save_call numalogic_cfg payload1 fetched1 2])%list
    /\ stored (registry st') = stored (registry state0).
Proof.
  apply (model_save_other_error_propagates unreachable_registry_world
           numalogic_cfg payload1 fetched1 state0
           (to_numpy fetched1) 1 (to_numpy fetched1) 2 3 ConnectionError).
  - reflexivity.
  - reflexivity.
  - reflexivity.
  - reflexivity.
  - discriminate.
Defined.

Lemma run_raises_on_undecodable_message_witness :
  run prom_world
    [(now1, datum1); (now1 + 1, undecodable); (now1 + 2, datum1)] state0
  = (Raise ValueError, (run prom_world [(now1, datum1)] state0).2).
Proof.
  apply (run_raises_on_undecodable_message prom_world [(now1, datum1)]
           (now1 + 1) undecodable [(now1 + 2, datum1)] state0 ValueError
           [ack datum1]).
  - reflexivity.
  - vm_compute. reflexivity.
Defined.


Lemma duplicate_request_trains_once_witness :
  exists st',
    run prom_world [(now1, datum1); (now1 + 10, datum1)] state0
    = (Ok [ack datum1; ack datum1], st')
    /\ stages st' = (stages state0 ++ [Preprocess; FitModel; FitThreshold])%list
    /\ attempts (registry st')
       = (attempts (registry state0)
          ++ [model_save_call numalogic_cfg payload1 fetched1 2;
              preproc_save_call numalogic_cfg payload1 1;
              thresh_save_call numalogic_cfg payload1 3])%list
    /\ Forall (fun call =>
                 skeys call = (composite_keys payload1 ++ [metric payload1])%list)
         (drop (length (attempts (registry state0)))
            (attempts (registry st'))).
Proof.
  apply (duplicate_request_trains_once prom_world now1 (now1 + 10)
           datum1 datum1 payload1 payload1 "sandbox_numalogic_demo"%string
           (metric_cfg 1) fetched1 state0
           (to_numpy fetched1) 1 (to_numpy fetched1) 2 3).
  - reflexivity.
  - reflexivity.
  - reflexivity.
  - reflexivity.
  - reflexivity.
  - cbn. lia.
  - reflexivity.
  - reflexivity.
  - vm_compute. reflexivity.
  - cbn. lia.
  - reflexivity.
  - reflexivity.
  - reflexivity.
  - intros call reg e. cbn. discriminate.
Defined.

Lemma fetch_prometheus_data_one_request_witness :
  fetch_prometheus_data picky_world now1 payload1
  = fetch_prometheus_data prom_world now1 payload1.
Proof.
  apply (fetch_prometheus_data_one_request prom_world picky_world now1
           payload1 {| server := server1 |} "metric_1"%string).
  - reflexivity.
  - reflexivity.
  - reflexivity.
  - vm_compute. reflexivity.
Defined.

Lemma unresolvable_source_is_skipped_witness :
  (exists e, fetch_data prom_world now1 short_payload = Raise e)
  /\ run_datum prom_world now1 short_datum [] state0
     = (Ok [ack short_datum],
        {| redis := redis_setex now1 (redis state0)
                      (request_key short_payload)
                      (REQUEST_EXPIRY prom_world) "1";
           registry := registry state0; stages := stages state0 |}).
Proof.
  apply (unresolvable_source_is_skipped prom_world now1 short_datum
           short_payload [] "sandbox_numalogic_demo"%string (metric_cfg 1)
           state0).
  - reflexivity.
  - reflexivity.
  - reflexivity.
  - reflexivity.
  - right. exists (stream_cfg PROMETHEUS). repeat split. discriminate.
Defined.

End SinkMoreExamples.
